(** * Min-heap and singly linked list tutorials: a shallow embedding

    The Python snippets under [implementing-heap-in-python] and
    [implementing-linked-lists-in-python] are embedded as Rocq functions.
    Python integers are [Z]; a Python list is a [list] read and written
    through [getitem]/[setitem]/[delitem], which follow Python's index
    rules (negative indices count from the end, anything else out of range
    raises [IndexError]).  A method that mutates [self.nodes] in place is a
    function from the old contents to the new contents; exceptions and
    recursion depth are explicit in the [result] type. *)

From Stdlib Require Import ZArith Lia Sorted.
From stdpp Require Import base option list strings.

Local Open Scope Z_scope.

(** ** Outcomes of running Python code *)

Inductive exn : Type :=
  | IndexError
  | AttributeError
  | TypeError.

Inductive result (A : Type) : Type :=
  | Ok (a : A)
  | Raise (e : exn)
  | OutOfFuel
  | Stuck.

Arguments Ok {A} a.
Arguments Raise {A} e.
Arguments OutOfFuel {A}.
Arguments Stuck {A}.

Definition bind {A B : Type} (r : result A) (k : A -> result B) : result B :=
  match r with
  | Ok a => k a
  | Raise e => Raise e
  | OutOfFuel => OutOfFuel
  | Stuck => Stuck
  end.

Notation "'do' x <- c ; k" := (bind c (fun x => k))
  (at level 10, x name, c at level 100, k at level 200).
Notation "'do' ' p <- c ; k" := (bind c (fun x => match x with p => k end))
  (at level 10, p pattern, c at level 100, k at level 200).

(** ** Python lists *)

Module PyList.

Definition len {A : Type} (l : list A) : Z := Z.of_nat (length l).

(** Position denoted by a Python index: [l[-1]] is the last element. *)
Definition py_index {A : Type} (l : list A) (i : Z) : result nat :=
  if i <? 0 then
    if i + len l <? 0 then Raise IndexError else Ok (Z.to_nat (i + len l))
  else
    if i <? len l then Ok (Z.to_nat i) else Raise IndexError.

(** [l[i]] *)
Definition getitem {A : Type} (l : list A) (i : Z) : result A :=
  do n <- py_index l i;
  match l !! n with
  | Some v => Ok v
  | None => Raise IndexError
  end.

(** [l[i] = v] *)
Definition setitem {A : Type} (l : list A) (i : Z) (v : A) : result (list A) :=
  do n <- py_index l i;
  Ok (<[n := v]> l).

(** [del l[i]] *)
Definition delitem {A : Type} (l : list A) (i : Z) : result (list A) :=
  do n <- py_index l i;
  Ok (delete n l).

(** [l.append(v)] *)
Definition append {A : Type} (l : list A) (v : A) : list A := l ++ [v].

(** [range(start, stop, -1)] as the list of values it yields. *)
Fixpoint count_down (n : nat) (start : Z) : list Z :=
  match n with
  | O => []
  | S n' => start :: count_down n' (start - 1)
  end.

Definition range_down (start stop : Z) : list Z :=
  count_down (Z.to_nat (start - stop)) start.

End PyList.

Import PyList.

(** ** MinHeap *)

Module MinHeap.

(** Modelled from the spec: the index helpers [__get_left_child_index],
    [__get_right_child_index], [__get_parent_index] are defined in an
    earlier snippet that is not part of the sources; the spec places the
    children of index [i] at [2i+1] and [2i+2] (0-based), and the parent
    is the inverse of that, with Python's floor division. *)
Definition get_left_child_index (index : Z) : Z := 2 * index + 1.
Definition get_right_child_index (index : Z) : Z := 2 * index + 2.
Definition get_parent_index (index : Z) : Z := (index - 1) / 2.

(** Modelled from the spec: the helpers [__has_left_child],
    [__has_right_child] (a child exists when its index is inside the
    backing sequence), [__left_child], [__right_child] (the element stored
    at the child's index) and [__parent] (the element stored at the
    parent's index, or [None] at the root, which has no parent) are
    defined in the same missing snippet. *)
Definition has_left_child (nodes : list Z) (index : Z) : bool :=
  get_left_child_index index <? len nodes.
Definition has_right_child (nodes : list Z) (index : Z) : bool :=
  get_right_child_index index <? len nodes.
Definition has_parent (index : Z) : bool :=
  0 <=? get_parent_index index.
Definition left_child (nodes : list Z) (index : Z) : result Z :=
  getitem nodes (get_left_child_index index).
Definition right_child (nodes : list Z) (index : Z) : result Z :=
  getitem nodes (get_right_child_index index).
Definition parent (nodes : list Z) (index : Z) : result (option Z) :=
  if has_parent index then
    do v <- getitem nodes (get_parent_index index); Ok (Some v)
  else Ok None.

(** Truth value of an [Optional[int]] in a Python condition:
    [None] and [0] are false. *)
Definition truthy (v : option Z) : bool :=
  match v with
  | None => false
  | Some n => negb (n =? 0)
  end.

(** [__swap]: an index at or past the end prints a diagnostic and leaves
    the list alone. *)
Definition swap (nodes : list Z) (first_idx second_idx : Z) : result (list Z) :=
  if (len nodes <=? first_idx) || (len nodes <=? second_idx) then Ok nodes
  else
    do tmp <- getitem nodes first_idx;
    do v <- getitem nodes second_idx;
    do nodes1 <- setitem nodes first_idx v;
    setitem nodes1 second_idx tmp.

(** [__heapify_up(child)]; [child] is [None] for the default argument.
    The result is the content of [self.nodes] when the call returns. *)
Fixpoint heapify_up_fuel (fuel : nat) (nodes : list Z) (child : option Z)
  : result (list Z) :=
  match fuel with
  | O => OutOfFuel
  | S fuel' =>
      let child :=
        match child with
        | None => len nodes - 1
        | Some c => if c =? 0 then len nodes - 1 else c
        end in
      let parent_idx := get_parent_index child in
      do p <- parent nodes child;
      do smaller <-
        (if truthy p then
           do c <- getitem nodes child;
           do p' <- parent nodes child;
           match p' with
           | Some pv => Ok (c <? pv)
           | None => Raise TypeError
           end
         else Ok false);
      if smaller : bool then
        do nodes1 <- swap nodes child parent_idx;
        heapify_up_fuel fuel' nodes1 (Some parent_idx)
      else Ok nodes
  end.

(** The depth allowed to [__heapify_up]; [add_spec] shows that it is
    never exhausted on a min-heap. *)
Definition heapify_up (nodes : list Z) : result (list Z) :=
  heapify_up_fuel (S (length nodes * length nodes)) nodes None.

(** [add(item)] *)
Definition add (nodes : list Z) (item : Z) : result (list Z) :=
  heapify_up (append nodes item).

(** The choice of [smaller_child_idx] in [__heapify_down]: the left
    child, unless a right child exists and is strictly smaller. *)
Definition smaller_child_idx (nodes : list Z) (index : Z) : result Z :=
  do right_smaller <-
    (if has_right_child nodes index then
       do r <- right_child nodes index;
       do l <- left_child nodes index;
       Ok (r <? l)
     else Ok false);
  Ok (if right_smaller : bool then get_right_child_index index
      else get_left_child_index index).

(** [__heapify_down(index)] (called [heapify_down] in the last snippet). *)
Fixpoint heapify_down_fuel (fuel : nat) (nodes : list Z) (index : Z)
  : result (list Z) :=
  match fuel with
  | O => OutOfFuel
  | S fuel' =>
      if (len nodes <=? index) || negb (has_left_child nodes index) then Ok nodes
      else
        do smaller_child_idx <- smaller_child_idx nodes index;
        do a <- getitem nodes index;
        do b <- getitem nodes smaller_child_idx;
        if a <? b then Ok nodes
        else if b <? a then
          do nodes1 <- swap nodes index smaller_child_idx;
          heapify_down_fuel fuel' nodes1 smaller_child_idx
        else Ok nodes
  end.

(** Each recursive call moves to a child index, so the depth never
    exceeds the length of the list. *)
Definition heapify_down (nodes : list Z) (index : Z) : result (list Z) :=
  heapify_down_fuel (S (length nodes)) nodes index.

(** [is_empty()]: [not self.nodes]. *)
Definition is_empty (nodes : list Z) : bool :=
  match nodes with
  | [] => true
  | _ :: _ => false
  end.

(** [poll()]: the returned value and the new content of [self.nodes]. *)
Definition poll (nodes : list Z) : result (option Z * list Z) :=
  if is_empty nodes then Ok (None, nodes)
  else
    do removed_node <- getitem nodes 0;
    do last <- getitem nodes (len nodes - 1);
    do nodes1 <- setitem nodes 0 last;
    do nodes2 <- delitem nodes1 (-1);
    do nodes3 <- heapify_down nodes2 0;
    Ok (Some removed_node, nodes3).

(** [peek()]: the returned value and the (unchanged) content. *)
Definition peek (nodes : list Z) : result (option Z * list Z) :=
  if negb (is_empty nodes) then Ok (None, nodes)
  else
    do v <- getitem nodes 0;
    Ok (Some v, nodes).

(** [heapify_children(index)] *)
Fixpoint heapify_children_fuel (fuel : nat) (nodes : list Z) (index : Z)
  : result (list Z) :=
  match fuel with
  | O => OutOfFuel
  | S fuel' =>
      if negb (has_left_child nodes index) then Ok nodes
      else if negb (has_right_child nodes index) then Ok nodes
      else
        do r <- right_child nodes index;
        do l <- left_child nodes index;
        do nodes1 <-
          (if r <? l then
             swap nodes (get_right_child_index index) (get_left_child_index index)
           else Ok nodes);
        do nodes2 <- heapify_children_fuel fuel' nodes1 (get_left_child_index index);
        heapify_children_fuel fuel' nodes2 (get_right_child_index index)
  end.

Definition heapify_children (nodes : list Z) (index : Z) : result (list Z) :=
  heapify_children_fuel (S (length nodes)) nodes index.

End MinHeap.

Import MinHeap.

(** ** List objects and the two heapsort functions

    [heapsort_aux] and [heapsort_in_place] receive and return list
    objects, and the second one makes the heap share its argument.  A
    list object is a reference into a store that holds the contents; two
    variables alias exactly when they hold the same reference. *)

Module Heapsort.

Abbreviation ref := nat.
Abbreviation store := (list (list Z)).

(** A list display [[]] creates a new object. *)
Definition alloc (σ : store) (l : list Z) : ref * store :=
  (length σ, σ ++ [l]).

Definition read (σ : store) (r : ref) : result (list Z) :=
  match σ !! r with
  | Some l => Ok l
  | None => Stuck
  end.

Definition write (σ : store) (r : ref) (l : list Z) : store := <[r := l]> σ.

(** Run on the object [r] a method that works on the contents in place. *)
Definition update (σ : store) (r : ref) (f : list Z -> result (list Z))
  : result store :=
  do l <- read σ r;
  do l' <- f l;
  Ok (write σ r l').

(** [for x in xs: body] *)
Fixpoint for_each {S A : Type} (xs : list A) (body : S -> A -> result S) (s : S)
  : result S :=
  match xs with
  | [] => Ok s
  | x :: xs' => do s' <- body s x; for_each xs' body s'
  end.

(** A [MinHeap] instance: its [nodes] attribute refers to a list object. *)
Record heap_object : Type := { nodes : ref }.

(** [MinHeap(nodes)]: [self.nodes = []], then [self.add(node)] for every
    item of the argument. *)
Definition new_MinHeap (σ : store) (init : list Z) : result (heap_object * store) :=
  let '(r, σ1) := alloc σ [] in
  do σ2 <- for_each init (fun σ node => update σ r (fun l => add l node)) σ1;
  Ok ({| nodes := r |}, σ2).

(** [heapsort_aux(unsorted_input)].  [sorted_input] is a list of ints: a
    [None] from [poll], which only an empty heap returns, has no place
    in it. *)
Definition heapsort_aux (σ : store) (unsorted_input : ref) : result (ref * store) :=
  do input <- read σ unsorted_input;
  do '(heap, σ1) <- new_MinHeap σ input;
  let '(sorted_input, σ2) := alloc σ1 [] in
  do σ3 <-
    for_each (seq 0 (length input))
      (fun σ _ =>
         do l <- read σ (nodes heap);
         do '(polled, l') <- poll l;
         let σ' := write σ (nodes heap) l' in
         match polled with
         | Some v => update σ' sorted_input (fun s => Ok (append s v))
         | None => Stuck
         end) σ2;
  Ok (sorted_input, σ3).

(** [heapsort_in_place(unsorted_input)] *)
Definition heapsort_in_place (σ : store) (unsorted_input : ref)
  : result (ref * store) :=
  do '(_, σ1) <- new_MinHeap σ [];
  let heap := {| nodes := unsorted_input |} in
  do input <- read σ1 unsorted_input;
  let size := len input in
  do σ2 <-
    for_each (range_down (size / 2) (-1))
      (fun σ idx => update σ (nodes heap) (fun l => heapify_down l idx)) σ1;
  do σ3 <- update σ2 (nodes heap) (fun l => heapify_children l 0);
  Ok (nodes heap, σ3).

(** What the two loops of [heapsort_in_place] do to the contents of the
    shared list. *)
Definition bottom_up_pass (nodes : list Z) : result (list Z) :=
  for_each (range_down (len nodes / 2) (-1)) heapify_down nodes.


(** What the second loop of [heapsort_aux] does to the contents of the
    heap's list and of [sorted_input]. *)
Fixpoint drain (n : nat) (nodes sorted : list Z) : result (list Z * list Z) :=
  match n with
  | O => Ok (nodes, sorted)
  | S n' =>
      do '(polled, nodes') <- poll nodes;
      match polled with
      | Some v => drain n' nodes' (append sorted v)
      | None => Stuck
      end
  end.

End Heapsort.

Import Heapsort.


(** ** The min-heap invariant *)

Definition child_of (c i : Z) : Prop :=
  c = get_left_child_index i \/ c = get_right_child_index i.

(** The element at [i] is no larger than each child that exists. *)
Definition heap_ok_at (nodes : list Z) (i : Z) : Prop :=
  forall c v w,
    child_of c i -> getitem nodes i = Ok v -> getitem nodes c = Ok w -> v <= w.

Definition heap_from (nodes : list Z) (k : Z) : Prop :=
  forall i, k <= i -> heap_ok_at nodes i.

Definition min_heap (nodes : list Z) : Prop := heap_from nodes 0.

(** Executable check of the invariant. *)
Definition le_childb (nodes : list Z) (v : Z) (c : nat) : bool :=
  match nodes !! c with
  | Some w => v <=? w
  | None => true
  end.

Definition heap_ok_atb (nodes : list Z) (i : nat) : bool :=
  match nodes !! i with
  | Some v => le_childb nodes v (2 * i + 1) && le_childb nodes v (2 * i + 2)
  | None => true
  end.

Definition min_heapb (nodes : list Z) : bool :=
  forallb (heap_ok_atb nodes) (seq 0 (length nodes)).

Definition heap_fromb (nodes : list Z) (k : nat) : bool :=
  forallb (heap_ok_atb nodes) (seq k (length nodes - k)).

(** Where the element now at position [k] came from. *)
Definition exchange (i j k : Z) : Z :=
  if k =? i then j else if k =? j then i else k.


(** State of the list while [__heapify_down] works on index [j]: the
    invariant holds at every index from [k] on except [j], and the parent
    of [j] is no larger than the children of [j]. *)
Definition sift_ready (nodes : list Z) (k j : Z) : Prop :=
  (forall i, k <= i -> i <> j -> heap_ok_at nodes i) /\
  (forall p c v w,
      k <= p -> child_of j p -> child_of c j ->
      getitem nodes p = Ok v -> getitem nodes c = Ok w -> v <= w).

(** State of the list while [__heapify_up] works on index [j]: every
    parent is no larger than each child other than [j], and the parent of
    [j] is no larger than the children of [j]. *)
Definition up_ready (nodes : list Z) (j : Z) : Prop :=
  (forall i c v w,
      0 <= i -> child_of c i -> c <> j ->
      getitem nodes i = Ok v -> getitem nodes c = Ok w -> v <= w) /\
  (forall p c v w,
      0 <= p -> child_of j p -> child_of c j ->
      getitem nodes p = Ok v -> getitem nodes c = Ok w -> v <= w).

(** [within a k]: index [k] lies in the subtree rooted at index [a]. *)
Inductive within (a : Z) : Z -> Prop :=
  | within_root : within a a
  | within_left k : within a k -> within a (get_left_child_index k)
  | within_right k : within a k -> within a (get_right_child_index k).

(** The index [__heapify_up] works on: [None] and [0] stand for the last
    index. *)
Definition start_of (nodes : list Z) (child : option Z) : Z :=
  match child with
  | None => len nodes - 1
  | Some c => if c =? 0 then len nodes - 1 else c
  end.



(** ** SinglyLinkedList *)

Module SLL.

(** Payloads ([data: Any]): the strings and integers the snippets store.
    The sentinel carries the string ["HEAD"]. *)
Inductive pyval : Type :=
  | PyStr (s : string)
  | PyInt (n : Z).

(** Python's [==] on payloads. *)
Definition py_eq (a b : pyval) : bool :=
  match a, b with
  | PyStr s, PyStr t => String.eqb s t
  | PyInt n, PyInt m => n =? m
  | _, _ => false
  end.

(** A node with the chain hanging from it. *)
Unset Elimination Schemes.
Inductive SLLNode : Type :=
  | Node (data : pyval) (next : option SLLNode).
Set Elimination Schemes.

Definition data (node : SLLNode) : pyval :=
  match node with Node d _ => d end.

Definition next (node : SLLNode) : option SLLNode :=
  match node with Node _ nx => nx end.

Record SinglyLinkedList : Type := { HEAD : SLLNode }.

(** [SinglyLinkedList()] *)
Definition new : SinglyLinkedList := {| HEAD := Node (PyStr "HEAD") None |}.

(** [__iter__]: the nodes from the sentinel on, in order. *)
Fixpoint iter_from (node : SLLNode) : list SLLNode :=
  match node with
  | Node _ nx =>
      node :: match nx with
              | Some n => iter_from n
              | None => []
              end
  end.

Definition iter (l : SinglyLinkedList) : list SLLNode := iter_from (HEAD l).

(** [__len__] *)
Definition length (l : SinglyLinkedList) : Z := len (iter l) - 1.

(** The loop [for node in self: if node.data == data: return ...]. *)
Fixpoint first_with_data (nodes : list SLLNode) (d : pyval) : option SLLNode :=
  match nodes with
  | [] => None
  | node :: rest => if py_eq (data node) d then Some node else first_with_data rest d
  end.

(** [__contains__] *)
Definition contains (l : SinglyLinkedList) (d : pyval) : bool :=
  match first_with_data (iter l) d with
  | Some _ => true
  | None => false
  end.

(** [find] *)
Definition find (l : SinglyLinkedList) (d : pyval) : option SLLNode :=
  match next (HEAD l) with
  | None => None
  | Some _ => first_with_data (iter l) d
  end.

(** The guard of the three indexing operators. *)
Definition out_of_range (l : SinglyLinkedList) (index : Z) : bool :=
  (index <? 0) && (length l - 1 <? index).

(** [node = node.next], [steps] times; [None.next] raises. *)
Fixpoint walk (steps : nat) (node : option SLLNode) : result (option SLLNode) :=
  match steps with
  | O => Ok node
  | S k =>
      match node with
      | None => Raise AttributeError
      | Some n => walk k (next n)
      end
  end.

(** [__getitem__] *)
Definition getitem (l : SinglyLinkedList) (index : Z) : result (option SLLNode) :=
  if out_of_range l index then Raise IndexError
  else
    do node <- walk (Z.to_nat index) (Some (HEAD l));
    match node with
    | None => Raise AttributeError
    | Some n => Ok (next n)
    end.

(** Walk [steps] links down from [node] and change the node reached;
    the result is the chain from [node] after the change.  Reaching
    [None] raises, at the next [.next] or at the attribute access. *)
Fixpoint update_at (steps : nat) (f : SLLNode -> SLLNode) (node : SLLNode)
  : result SLLNode :=
  match steps with
  | O => Ok (f node)
  | S k =>
      match node with
      | Node d None => Raise AttributeError
      | Node d (Some n) => do n' <- update_at k f n; Ok (Node d (Some n'))
      end
  end.

(** [__setitem__]; the list it returns is [self]. *)
Definition setitem (l : SinglyLinkedList) (index : Z) (d : pyval)
  : result SinglyLinkedList :=
  if out_of_range l index then Raise IndexError
  else
    do h <- update_at (Z.to_nat (index + 1)) (fun node => Node d (next node)) (HEAD l);
    Ok {| HEAD := h |}.

(** [node.next = node.next.next if node.next else None] *)
Definition unlink_next (node : SLLNode) : SLLNode :=
  Node (data node)
    match next node with
    | Some n => next n
    | None => None
    end.

(** [__delitem__]: the list after the call. *)
Definition delitem (l : SinglyLinkedList) (index : Z) : result SinglyLinkedList :=
  if out_of_range l index then Raise IndexError
  else
    do h <- update_at (Z.to_nat index) unlink_next (HEAD l);
    Ok {| HEAD := h |}.

(** [append] *)
Fixpoint append_from (node : SLLNode) (d : pyval) : SLLNode :=
  match node with
  | Node x None => Node x (Some (Node d None))
  | Node x (Some n) => Node x (Some (append_from n d))
  end.

Definition append (l : SinglyLinkedList) (d : pyval) : SinglyLinkedList :=
  {| HEAD := append_from (HEAD l) d |}.

(** The loop of [remove], started at [node]: the chain from [node] when
    the loop returns. *)
Fixpoint remove_from (node : SLLNode) (d : pyval) : result SLLNode :=
  match node with
  | Node x None => Raise AttributeError
  | Node x (Some n) =>
      if py_eq (data n) d then Ok (Node x (next n))
      else do n' <- remove_from n d; Ok (Node x (Some n'))
  end.

(** What [remove] returns: [None] or [self]. *)
Inductive returned : Type :=
  | ReturnedNone
  | ReturnedSelf.

(** [remove]: the returned value and the list after the call. *)
Definition remove (l : SinglyLinkedList) (d : pyval)
  : result (returned * SinglyLinkedList) :=
  match next (HEAD l) with
  | None => Ok (ReturnedNone, l)
  | Some _ =>
      do h <- remove_from (HEAD l) d;
      Ok (ReturnedSelf, {| HEAD := h |})
  end.

(** [SinglyLinkedList(nodes)] *)
Definition init (nodes : option (list SLLNode)) : SinglyLinkedList :=
  match nodes with
  | None => new
  | Some nodes => fold_left (fun l node => append l (data node)) nodes new
  end.

(** The payloads of the data nodes downstream from [node], in order. *)
Definition payloads_after (node : SLLNode) : list pyval :=
  match iter_from node with
  | [] => []
  | _ :: rest => map data rest
  end.

Definition payloads (l : SinglyLinkedList) : list pyval :=
  payloads_after (HEAD l).

(** A list of payloads without the first one equal to [d]. *)
Fixpoint without_first (d : pyval) (ds : list pyval) : list pyval :=
  match ds with
  | [] => []
  | x :: ds' => if py_eq x d then ds' else x :: without_first d ds'
  end.

(** [appendleft]; both branches link a new node in front of what
    followed the sentinel. *)
Definition appendleft (l : SinglyLinkedList) (d : pyval) : SinglyLinkedList :=
  match next (HEAD l) with
  | None => {| HEAD := Node (data (HEAD l)) (Some (Node d None)) |}
  | Some previous_first =>
      {| HEAD := Node (data (HEAD l)) (Some (Node d (Some previous_first))) |}
  end.

(** [popleft]: the returned node, which still points to its successor,
    and the list after the call. *)
Definition popleft (l : SinglyLinkedList) : option SLLNode * SinglyLinkedList :=
  match next (HEAD l) with
  | None => (None, l)
  | Some previous_first =>
      (Some previous_first, {| HEAD := Node (data (HEAD l)) (next previous_first) |})
  end.

(** The loop [while node.next.next: node = node.next] of [pop] started at
    [node], followed by the unlinking: the removed node and the chain from
    [node] afterwards. *)
Fixpoint pop_from (node : SLLNode) : result (SLLNode * SLLNode) :=
  match node with
  | Node x None => Raise AttributeError
  | Node x (Some n) =>
      match next n with
      | None => Ok (n, Node x None)
      | Some _ => do '(removed, n') <- pop_from n; Ok (removed, Node x (Some n'))
      end
  end.

(** [pop]: the returned node and the list after the call. *)
Definition pop (l : SinglyLinkedList) : result (option SLLNode * SinglyLinkedList) :=
  match next (HEAD l) with
  | None => Ok (None, l)
  | Some _ =>
      do '(removed_node, h) <- pop_from (HEAD l);
      Ok (Some removed_node, {| HEAD := h |})
  end.





(** [other[index]] with a payload as the index: the guard of
    [__getitem__] starts with [index < 0], which raises [TypeError] for a
    string. *)
Definition getitem_payload (other : SinglyLinkedList) (index : pyval)
  : result (option SLLNode) :=
  match index with
  | PyStr _ => Raise TypeError
  | PyInt n => getitem other n
  end.

(** [node.data != other[...]]: a string or an integer is never equal to
    a node or to [None]. *)
Definition payload_ne_node (d : pyval) (found : option SLLNode) : bool := true.

(** The loop of [__eq__]. *)
Fixpoint eq_loop (nodes : list SLLNode) (other : SinglyLinkedList) : result bool :=
  match nodes with
  | [] => Ok true
  | node :: rest =>
      do found <- getitem_payload other (data node);
      if payload_ne_node (data node) found then Ok false
      else eq_loop rest other
  end.

(** [__eq__] *)
Definition __eq__ (l other : SinglyLinkedList) : result bool :=
  if negb (length l =? length other) then Ok false
  else eq_loop (iter l) other.

(** [__ne__]: [not self == other]. *)
Definition __ne__ (l other : SinglyLinkedList) : result bool :=
  do b <- __eq__ l other; Ok (negb b).

(** The list built by [SinglyLinkedList([SLLNode(1), SLLNode(2), SLLNode(3)])]. *)
Definition one_two_three : SinglyLinkedList :=
  init (Some [Node (PyInt 1) None; Node (PyInt 2) None; Node (PyInt 3) None]).

End SLL.

(** * Properties *)

(** ** Facts about Python list access *)

Section PyListFacts.
Context {A : Type}.
Implicit Types (l : list A) (i j k : Z) (v : A).

Lemma len_nonneg l : 0 <= len l.
Proof. unfold len. lia. Qed.

Lemma py_index_nonneg l i :
  0 <= i -> i < len l -> py_index l i = Ok (Z.to_nat i).
Proof.
  intros H0 H1. unfold py_index.
  destruct (Z.ltb_spec i 0); [lia|].
  destruct (Z.ltb_spec i (len l)); [reflexivity | lia].
Qed.

Lemma py_index_past_end l i :
  len l <= i -> py_index l i = Raise IndexError.
Proof.
  intros H. pose proof (len_nonneg l). unfold py_index.
  destruct (Z.ltb_spec i 0); [lia|].
  destruct (Z.ltb_spec i (len l)); [lia | reflexivity].
Qed.

Lemma getitem_lookup l i :
  0 <= i ->
  getitem l i = match l !! Z.to_nat i with Some v => Ok v | None => Raise IndexError end.
Proof.
  intros H0. unfold getitem.
  destruct (Z.lt_ge_cases i (len l)) as [Hlt | Hge].
  - rewrite py_index_nonneg by lia. reflexivity.
  - rewrite py_index_past_end by lia. simpl.
    rewrite (lookup_ge_None_2 l (Z.to_nat i)); [reflexivity|].
    unfold len in Hge. lia.
Qed.

Lemma getitem_Ok_lookup l i v :
  0 <= i -> getitem l i = Ok v <-> l !! Z.to_nat i = Some v.
Proof.
  intros H0. rewrite getitem_lookup by assumption.
  destruct (l !! Z.to_nat i); split; congruence.
Qed.

Lemma getitem_Ok_lt l i v : 0 <= i -> getitem l i = Ok v -> i < len l.
Proof.
  intros H0 H. apply getitem_Ok_lookup in H; [|assumption].
  apply lookup_lt_Some in H. unfold len. lia.
Qed.

Lemma getitem_in_range l i :
  0 <= i -> i < len l -> exists v, getitem l i = Ok v.
Proof.
  intros H0 H1. rewrite getitem_lookup by assumption.
  destruct (lookup_lt_is_Some_2 l (Z.to_nat i)) as [v Hv].
  { unfold len in H1. lia. }
  exists v. rewrite Hv. reflexivity.
Qed.

Lemma getitem_elem_of l i v : 0 <= i -> getitem l i = Ok v -> v ∈ l.
Proof.
  intros H0 H. apply getitem_Ok_lookup in H; [|assumption].
  eapply list_elem_of_lookup_2; eassumption.
Qed.

Lemma elem_of_getitem l v : v ∈ l -> exists i, 0 <= i /\ getitem l i = Ok v.
Proof.
  intros H. apply list_elem_of_lookup in H as [n Hn].
  exists (Z.of_nat n). split; [lia|].
  apply getitem_Ok_lookup; [lia|]. rewrite Nat2Z.id. assumption.
Qed.

Lemma perm_insert_head l (n : nat) v w :
  l !! n = Some w -> w :: <[n := v]> l ≡ₚ v :: l.
Proof.
  revert n. induction l as [|x l IH]; intros [|n] H; simpl in *; try discriminate.
  - injection H as ->. apply perm_swap.
  - rewrite perm_swap. rewrite (IH n H). apply perm_swap.
Qed.

Lemma perm_insert_insert l (n m : nat) v w :
  l !! n = Some v -> l !! m = Some w ->
  <[m := v]> (<[n := w]> l) ≡ₚ l.
Proof.
  revert n m. induction l as [|x l IH]; intros [|n] [|m] Hn Hm; simpl in *;
    try discriminate.
  - injection Hn as ->. reflexivity.
  - injection Hn as ->. apply perm_insert_head. assumption.
  - injection Hm as ->. apply perm_insert_head. assumption.
  - f_equiv. apply IH; assumption.
Qed.

End PyListFacts.

Lemma heap_ok_atb_true nodes (n : nat) :
  heap_ok_atb nodes n = true -> heap_ok_at nodes (Z.of_nat n).
Proof.
  unfold heap_ok_atb, heap_ok_at, child_of, get_left_child_index,
    get_right_child_index, le_childb.
  intros Hb c v w Hc Hv Hw.
  apply getitem_Ok_lookup in Hv; [|lia]. rewrite Nat2Z.id in Hv.
  apply getitem_Ok_lookup in Hw; [|lia].
  rewrite Hv in Hb. apply andb_prop in Hb as [Hl Hr].
  destruct Hc as [-> | ->].
  - replace (Z.to_nat (2 * Z.of_nat n + 1)) with (2 * n + 1)%nat in Hw by lia.
    rewrite Hw in Hl. lia.
  - replace (Z.to_nat (2 * Z.of_nat n + 2)) with (2 * n + 2)%nat in Hw by lia.
    rewrite Hw in Hr. lia.
Qed.

Lemma heap_ok_at_past_end nodes i : len nodes <= i -> heap_ok_at nodes i.
Proof.
  intros Hi c v w _ Hv _. pose proof (len_nonneg nodes).
  apply getitem_Ok_lt in Hv; lia.
Qed.

Lemma min_heapb_true nodes : min_heapb nodes = true -> min_heap nodes.
Proof.
  unfold min_heapb, min_heap, heap_from. intros Hb i Hi.
  destruct (Z.lt_ge_cases i (len nodes)) as [Hlt | Hge].
  - rewrite forallb_forall in Hb.
    replace i with (Z.of_nat (Z.to_nat i)) by lia.
    apply heap_ok_atb_true, Hb, in_seq. unfold len in Hlt. lia.
  - apply heap_ok_at_past_end. assumption.
Qed.

Lemma min_heapb_false nodes : min_heapb nodes = false -> ~ min_heap nodes.
Proof.
  unfold min_heapb, min_heap, heap_from. intros Hb Hheap.
  apply not_true_iff_false in Hb. apply Hb. clear Hb.
  apply forallb_forall. intros n _.
  specialize (Hheap (Z.of_nat n) ltac:(lia)).
  unfold heap_ok_at, child_of, get_left_child_index, get_right_child_index in Hheap.
  unfold heap_ok_atb, le_childb.
  destruct (nodes !! n) as [v|] eqn:Hv; [|reflexivity].
  assert (Hgv : getitem nodes (Z.of_nat n) = Ok v).
  { apply getitem_Ok_lookup; [lia|]. rewrite Nat2Z.id. assumption. }
  apply andb_true_intro. split.
  - destruct (nodes !! (2 * n + 1)%nat) as [w|] eqn:Hw; [|reflexivity].
    apply Z.leb_le. apply (Hheap (2 * Z.of_nat n + 1) v w); [left; reflexivity | assumption |].
    apply getitem_Ok_lookup; [lia|].
    replace (Z.to_nat (2 * Z.of_nat n + 1)) with (2 * n + 1)%nat by lia. assumption.
  - destruct (nodes !! (2 * n + 2)%nat) as [w|] eqn:Hw; [|reflexivity].
    apply Z.leb_le. apply (Hheap (2 * Z.of_nat n + 2) v w); [right; reflexivity | assumption |].
    apply getitem_Ok_lookup; [lia|].
    replace (Z.to_nat (2 * Z.of_nat n + 2)) with (2 * n + 2)%nat by lia. assumption.
Qed.

(** ** The min-heap invariant and [__swap] on valid indices *)

Lemma swap_in_range nodes i j :
  0 <= i < len nodes -> 0 <= j < len nodes ->
  exists nodes',
    swap nodes i j = Ok nodes' /\
    length nodes' = length nodes /\
    nodes' ≡ₚ nodes /\
    forall k, 0 <= k -> getitem nodes' k = getitem nodes (exchange i j k).
Proof.
  intros Hi Hj. unfold swap.
  destruct (Z.leb_spec (len nodes) i); [lia|].
  destruct (Z.leb_spec (len nodes) j); [lia|]. simpl.
  destruct (getitem_in_range nodes i) as [a Ha]; [lia..|].
  destruct (getitem_in_range nodes j) as [b Hb]; [lia..|].
  rewrite Ha, Hb. simpl. unfold setitem.
  rewrite py_index_nonneg by lia. simpl.
  rewrite py_index_nonneg by (unfold len in *; rewrite ?length_insert; lia). simpl.
  apply getitem_Ok_lookup in Ha; [|lia]. apply getitem_Ok_lookup in Hb; [|lia].
  eexists. split; [reflexivity|]. split; [|split].
  - rewrite !length_insert. reflexivity.
  - apply perm_insert_insert; assumption.
  - intros k Hk. unfold exchange.
    assert (Hli : (Z.to_nat i < length nodes)%nat) by (unfold len in *; lia).
    assert (Hlj : (Z.to_nat j < length nodes)%nat) by (unfold len in *; lia).
    rewrite getitem_lookup by lia.
    destruct (Z.eqb_spec k j) as [-> | Hkj].
    + rewrite list_lookup_insert_eq by (rewrite length_insert; lia).
      destruct (Z.eqb_spec j i) as [-> | Hji].
      * rewrite getitem_lookup, Hb by lia. congruence.
      * rewrite getitem_lookup, Ha by lia. reflexivity.
    + rewrite list_lookup_insert_ne by lia.
      destruct (Z.eqb_spec k i) as [-> | Hki].
      * rewrite list_lookup_insert_eq by lia.
        rewrite getitem_lookup, Hb by lia. reflexivity.
      * rewrite list_lookup_insert_ne by lia.
        rewrite getitem_lookup by lia. reflexivity.
Qed.

(** ** Sift-down restores the invariant *)

Lemma smaller_child_idx_spec nodes j :
  0 <= j -> get_left_child_index j < len nodes ->
  exists s b,
    smaller_child_idx nodes j = Ok s /\ child_of s j /\ s < len nodes /\
    getitem nodes s = Ok b /\
    forall c w, child_of c j -> getitem nodes c = Ok w -> b <= w.
Proof.
  unfold smaller_child_idx, has_right_child, right_child, left_child, child_of,
    get_left_child_index, get_right_child_index.
  intros Hj Hl.
  destruct (getitem_in_range nodes (2 * j + 1)) as [l Hgl]; [lia..|].
  destruct (Z.ltb_spec (2 * j + 2) (len nodes)) as [Hr | Hr].
  - destruct (getitem_in_range nodes (2 * j + 2)) as [r Hgr]; [lia..|].
    rewrite Hgr, Hgl. simpl.
    destruct (Z.ltb_spec r l) as [Hrl | Hrl].
    + exists (2 * j + 2), r. repeat split; auto.
      intros c w [-> | ->] Hw; rewrite Hw in *; simplify_eq; lia.
    + exists (2 * j + 1), l. repeat split; auto.
      intros c w [-> | ->] Hw; rewrite Hw in *; simplify_eq; lia.
  - simpl. exists (2 * j + 1), l. repeat split; auto.
    intros c w [-> | ->] Hw.
    + rewrite Hw in *; simplify_eq; lia.
    + apply getitem_Ok_lt in Hw; lia.
Qed.

Lemma heapify_down_fuel_heap fuel : forall nodes k j,
  0 <= k <= j -> sift_ready nodes k j ->
  Z.max 0 (len nodes - j) < Z.of_nat fuel ->
  exists nodes',
    heapify_down_fuel fuel nodes j = Ok nodes' /\
    nodes' ≡ₚ nodes /\ heap_from nodes' k.
Proof.
  induction fuel as [|fuel IH]; intros nodes k j Hkj [Hok Hbr] Hfuel; [lia|].
  cbn [heapify_down_fuel].
  destruct (Z.leb_spec (len nodes) j) as [Hout | Hin]; cbn [orb].
  { exists nodes. split; [reflexivity|]. split; [reflexivity|]. intros i Hi.
    destruct (Z.eq_dec i j) as [-> | Hne]; [apply heap_ok_at_past_end | apply Hok]; auto. }
  unfold has_left_child.
  destruct (Z.ltb_spec (get_left_child_index j) (len nodes)) as [Hl | Hl]; cbn [negb].
  2:{ exists nodes. split; [reflexivity|]. split; [reflexivity|]. intros i Hi.
      destruct (Z.eq_dec i j) as [-> | Hne]; [|apply Hok; auto].
      intros c v w Hc _ Hw. apply getitem_Ok_lt in Hw;
        unfold child_of, get_left_child_index, get_right_child_index in *; lia. }
  destruct (smaller_child_idx_spec nodes j) as (s & b & Hs & Hcs & Hslen & Hb & Hmin);
    [lia | assumption |].
  destruct (getitem_in_range nodes j) as [a Ha]; [lia..|].
  rewrite Hs. cbn [bind]. rewrite Ha. cbn [bind]. rewrite Hb. cbn [bind].
  assert (Hjs : j < s)
    by (unfold child_of, get_left_child_index, get_right_child_index in Hcs; lia).
  assert (Hstay : a <= b -> heap_from nodes k).
  { intros Hab i Hi. destruct (Z.eq_dec i j) as [-> | Hne]; [|apply Hok; auto].
    intros c v w Hc Hv Hw. rewrite Ha in Hv. simplify_eq.
    specialize (Hmin c w Hc Hw). lia. }
  destruct (Z.ltb_spec a b) as [Hab | Hab].
  { exists nodes. split; [reflexivity|]. split; [reflexivity|]. apply Hstay. lia. }
  destruct (Z.ltb_spec b a) as [Hba | Hba].
  2:{ exists nodes. split; [reflexivity|]. split; [reflexivity|]. apply Hstay. lia. }
  destruct (swap_in_range nodes j s) as (nodes1 & Hswap & Hlen1 & Hperm1 & Hget1);
    [lia..|].
  rewrite Hswap. cbn [bind].
  destruct (IH nodes1 k s) as (nodes' & Hrun & Hperm & Hheap).
  - lia.
  - unfold child_of, get_left_child_index, get_right_child_index in *.
    split.
    + intros i Hi Hne c v w Hc Hv Hw.
      unfold child_of, get_left_child_index, get_right_child_index in Hc.
      rewrite Hget1 in Hv, Hw by lia. unfold exchange in Hv, Hw.
      destruct (Z.eqb_spec i j) as [-> | Hij].
      * rewrite Hb in Hv. simplify_eq.
        destruct (Z.eqb_spec c j); [lia|].
        destruct (Z.eqb_spec c s) as [-> | Hcs'].
        -- rewrite Ha in Hw. simplify_eq. lia.
        -- apply (Hmin c w); auto.
      * destruct (Z.eqb_spec i s); [lia|].
        destruct (Z.eqb_spec c j) as [-> | Hcj].
        -- rewrite Hb in Hw. simplify_eq.
           apply (Hbr i s v w); auto; lia.
        -- destruct (Z.eqb_spec c s); [lia|].
           apply (Hok i ltac:(lia) Hij c v w); auto.
    + intros p c v w Hp Hsp Hc Hv Hw.
      unfold child_of, get_left_child_index, get_right_child_index in Hsp, Hc.
      assert (p = j) as -> by lia.
      rewrite Hget1 in Hv, Hw by lia. unfold exchange in Hv, Hw.
      rewrite Z.eqb_refl in Hv. rewrite Hb in Hv. simplify_eq.
      destruct (Z.eqb_spec c j); [lia|]. destruct (Z.eqb_spec c s); [lia|].
      apply (Hok s ltac:(lia) ltac:(lia) c v w); auto.
  - unfold len in *. rewrite Hlen1. lia.
  - exists nodes'. split; [assumption|]. split; [etrans; eassumption | assumption].
Qed.

Lemma sift_ready_start nodes k :
  0 <= k -> heap_from nodes (k + 1) -> sift_ready nodes k k.
Proof.
  intros Hk Hheap. split.
  - intros i Hi Hne. apply Hheap. lia.
  - intros p c v w Hp Hkp _ _ _.
    unfold child_of, get_left_child_index, get_right_child_index in Hkp. lia.
Qed.

Lemma heapify_down_heap nodes k :
  0 <= k -> heap_from nodes (k + 1) ->
  exists nodes',
    heapify_down nodes k = Ok nodes' /\ nodes' ≡ₚ nodes /\ heap_from nodes' k.
Proof.
  intros Hk Hheap. unfold heapify_down.
  apply heapify_down_fuel_heap; [lia | apply sift_ready_start; assumption |].
  unfold len. lia.
Qed.

(** ** The root of a min-heap is its minimum *)

Lemma get_parent_index_spec i :
  1 <= i -> 0 <= get_parent_index i < i /\ child_of i (get_parent_index i).
Proof.
  unfold child_of, get_left_child_index, get_right_child_index, get_parent_index.
  intros Hi. Z.div_mod_to_equations. lia.
Qed.

Lemma min_heap_root_le nodes m :
  min_heap nodes -> getitem nodes 0 = Ok m ->
  forall i v, 0 <= i -> getitem nodes i = Ok v -> m <= v.
Proof.
  intros Hheap Hm i v Hi. revert v.
  induction i as [i IH] using (well_founded_induction (Z.lt_wf 0)).
  intros v Hv.
  destruct (Z.eq_dec i 0) as [-> | Hne].
  - rewrite Hm in Hv. simplify_eq. lia.
  - pose proof (getitem_Ok_lt _ _ _ Hi Hv) as Hlt.
    destruct (get_parent_index_spec i) as [Hp Hchild]; [lia|].
    destruct (getitem_in_range nodes (get_parent_index i)) as [u Hu]; [lia..|].
    assert (m <= u) by (apply (IH (get_parent_index i)); [lia | lia | assumption]).
    assert (u <= v); [|lia].
    apply (Hheap (get_parent_index i) ltac:(lia) i u v); assumption.
Qed.

Lemma min_heap_root_min nodes m :
  min_heap nodes -> getitem nodes 0 = Ok m -> forall v, v ∈ nodes -> m <= v.
Proof.
  intros Hheap Hm v Hv. apply elem_of_getitem in Hv as (i & Hi & Hgi).
  eapply min_heap_root_le; eassumption.
Qed.

(** ** [poll] *)

(** Moving the last element to the root and dropping the last slot. *)
Lemma poll_shrink (x : Z) (t : list Z) :
  exists y nodes2,
    getitem (x :: t) (len (x :: t) - 1) = Ok y /\
    setitem (x :: t) 0 y = Ok (y :: t) /\
    delitem (y :: t) (-1) = Ok nodes2 /\
    x :: nodes2 ≡ₚ x :: t /\
    forall i v, 1 <= i -> getitem nodes2 i = Ok v -> getitem (x :: t) i = Ok v.
Proof.
  destruct t as [|z t' _] using rev_ind.
  - exists x, []. repeat split; try reflexivity.
    intros i v Hi Hv. apply getitem_Ok_lt in Hv; [|lia]. unfold len in Hv. simpl in Hv. lia.
  - exists z, (z :: t').
    assert (Hlen : len (x :: t' ++ [z]) = Z.of_nat (length t') + 2).
    { unfold len. simpl. rewrite length_app. simpl. lia. }
    split; [|split; [|split; [|split]]].
    + apply getitem_Ok_lookup; [lia|]. rewrite Hlen.
      replace (Z.to_nat (Z.of_nat (length t') + 2 - 1)) with (S (length t')) by lia.
      simpl. apply list_lookup_middle. reflexivity.
    + unfold setitem. rewrite py_index_nonneg by lia. reflexivity.
    + unfold delitem, py_index.
      replace (len (z :: t' ++ [z])) with (Z.of_nat (length t') + 2)
        by (unfold len; simpl; rewrite length_app; simpl; lia).
      destruct (Z.ltb_spec (-1) 0); [|lia].
      destruct (Z.ltb_spec (-1 + (Z.of_nat (length t') + 2)) 0); [lia|].
      replace (Z.to_nat (-1 + (Z.of_nat (length t') + 2))) with (S (length t')) by lia.
      simpl. rewrite delete_middle, app_nil_r. reflexivity.
    + f_equiv. apply Permutation_cons_append.
    + intros i v Hi Hv.
      apply getitem_Ok_lookup in Hv; [|lia]. apply getitem_Ok_lookup; [lia|].
      destruct (Z.to_nat i) as [|n] eqn:Hn; [lia|]. simpl in *.
      apply lookup_app_l_Some. assumption.
Qed.

(** C3: on a heap that satisfies the min-heap invariant, [poll] of a
    non-empty heap returns the minimum of the stored elements and leaves a
    min-heap holding the prior elements minus one occurrence of that
    minimum; [poll] of an empty heap returns [None] and leaves the state
    unchanged. *)
Theorem poll_correct (nodes : list Z) :
  min_heap nodes ->
  (nodes <> [] ->
   exists m nodes',
     poll nodes = Ok (Some m, nodes') /\
     m ∈ nodes /\ (forall v, v ∈ nodes -> m <= v) /\
     min_heap nodes' /\ nodes ≡ₚ m :: nodes') /\
  (nodes = [] -> poll nodes = Ok (None, nodes)).
Proof.
  intros Hheap. split; [|intros ->; reflexivity].
  intros Hne. destruct nodes as [|x t]; [congruence|]. clear Hne.
  assert (Hroot : getitem (x :: t) 0 = Ok x) by (apply getitem_Ok_lookup; [lia | reflexivity]).
  destruct (poll_shrink x t) as (y & nodes2 & Hlast & Hset & Hdel & Hperm2 & Hget2).
  destruct (heapify_down_heap nodes2 0) as (nodes3 & Hdown & Hperm3 & Hheap3); [lia | |].
  { intros i Hi c v w Hc Hv Hw.
    apply (Hheap i ltac:(lia) c v w Hc); apply Hget2; try assumption; try lia.
    unfold child_of, get_left_child_index, get_right_child_index in Hc. lia. }
  exists x, nodes3. split; [|split; [|split; [|split]]].
  - unfold poll. cbn [is_empty]. rewrite Hroot. cbn [bind].
    rewrite Hlast. cbn [bind]. rewrite Hset. cbn [bind].
    rewrite Hdel. cbn [bind]. rewrite Hdown. reflexivity.
  - apply list_elem_of_here.
  - apply min_heap_root_min; assumption.
  - exact Hheap3.
  - rewrite Hperm3. symmetry. exact Hperm2.
Qed.

Lemma poll_correct_witness :
  min_heap [1; 3; 2; 7] /\
  exists m nodes',
    poll [1; 3; 2; 7] = Ok (Some m, nodes') /\
    m ∈ [1; 3; 2; 7] /\ (forall v, v ∈ [1; 3; 2; 7] -> m <= v) /\
    min_heap nodes' /\ [1; 3; 2; 7] ≡ₚ m :: nodes'.
Proof.
  assert (H : min_heap [1; 3; 2; 7]) by (apply min_heapb_true; reflexivity).
  split; [exact H|].
  apply (poll_correct [1; 3; 2; 7] H). discriminate.
Defined.

(** ** The bottom-up pass of [heapsort_in_place] *)

Lemma heap_ok_at_leaf nodes i :
  0 <= i -> len nodes <= get_left_child_index i -> heap_ok_at nodes i.
Proof.
  intros Hi Hleaf c v w Hc _ Hw.
  unfold child_of, get_left_child_index, get_right_child_index in *.
  apply getitem_Ok_lt in Hw; lia.
Qed.

Lemma count_down_heap n : forall start nodes,
  start = Z.of_nat n - 1 -> heap_from nodes (start + 1) ->
  exists nodes',
    for_each (count_down n start) heapify_down nodes = Ok nodes' /\
    nodes' ≡ₚ nodes /\ min_heap nodes'.
Proof.
  induction n as [|n IH]; intros start nodes Hstart Hheap.
  - exists nodes. split; [reflexivity|]. split; [reflexivity|].
    unfold min_heap. replace 0 with (start + 1) by lia. assumption.
  - destruct (heapify_down_heap nodes start) as (nodes1 & Hrun & Hperm1 & Hheap1);
      [lia | assumption |].
    destruct (IH (start - 1) nodes1) as (nodes' & Hrest & Hperm' & Hheap');
      [lia | replace (start - 1 + 1) with start by lia; assumption |].
    exists nodes'. cbn [count_down for_each]. rewrite Hrun. cbn [bind].
    split; [assumption|]. split; [etrans; eassumption | assumption].
Qed.

Lemma bottom_up_pass_heap nodes :
  exists heap,
    bottom_up_pass nodes = Ok heap /\ heap ≡ₚ nodes /\ min_heap heap.
Proof.
  unfold bottom_up_pass, range_down. pose proof (len_nonneg nodes) as Hlen.
  assert (Hhalf : 0 <= len nodes / 2 /\ len nodes < 2 * (len nodes / 2) + 2)
    by (Z.div_mod_to_equations; lia).
  apply count_down_heap; [lia|].
  intros i Hi. apply heap_ok_at_leaf; unfold get_left_child_index; lia.
Qed.

(** The indices visited by the first loop: [len/2], [len/2 - 1], ..., [0]. *)
Lemma count_down_seq n : forall start,
  start = Z.of_nat n - 1 ->
  count_down n start = rev (Z.of_nat <$> seq 0 n).
Proof.
  induction n as [|n IH]; intros start Hstart; [reflexivity|].
  rewrite seq_S, fmap_app, rev_app_distr. cbn [count_down].
  simpl. f_equal; [lia|]. apply IH. lia.
Qed.

Lemma range_down_to_zero (a : Z) :
  0 <= a -> range_down a (-1) = rev (Z.of_nat <$> seq 0 (Z.to_nat a + 1)).
Proof.
  intros Ha. unfold range_down.
  replace (Z.to_nat (a - -1)) with (Z.to_nat a + 1)%nat by lia.
  apply count_down_seq. lia.
Qed.

(** ** [heapify_children] *)

Lemma heapify_children_fuel_spec fuel : forall nodes i,
  0 <= i -> Z.max 0 (len nodes - i) < Z.of_nat fuel ->
  exists nodes',
    heapify_children_fuel fuel nodes i = Ok nodes' /\
    nodes' ≡ₚ nodes /\
    forall k, 0 <= k <= i -> getitem nodes' k = getitem nodes k.
Proof.
  induction fuel as [|fuel IH]; intros nodes i Hi Hfuel; [lia|].
  cbn [heapify_children_fuel].
  unfold has_left_child, has_right_child, left_child, right_child,
    get_left_child_index, get_right_child_index.
  destruct (Z.ltb_spec (2 * i + 1) (len nodes)) as [Hl | Hl]; cbn [negb];
    [|exists nodes; split; [reflexivity|]; split; [reflexivity|]; reflexivity].
  destruct (Z.ltb_spec (2 * i + 2) (len nodes)) as [Hr | Hr]; cbn [negb];
    [|exists nodes; split; [reflexivity|]; split; [reflexivity|]; reflexivity].
  destruct (getitem_in_range nodes (2 * i + 2)) as [r Hgr]; [lia..|].
  destruct (getitem_in_range nodes (2 * i + 1)) as [l Hgl]; [lia..|].
  rewrite Hgr, Hgl. cbn [bind].
  assert (Hstep : exists nodes1,
    (if r <? l then swap nodes (2 * i + 2) (2 * i + 1) else Ok nodes) = Ok nodes1 /\
    nodes1 ≡ₚ nodes /\
    forall k, 0 <= k <= i -> getitem nodes1 k = getitem nodes k).
  { destruct (r <? l).
    - destruct (swap_in_range nodes (2 * i + 2) (2 * i + 1))
        as (nodes1 & Hswap & _ & Hperm1 & Hget1); [lia..|].
      exists nodes1. split; [assumption|]. split; [assumption|].
      intros k Hk. rewrite Hget1 by lia. unfold exchange.
      destruct (Z.eqb_spec k (2 * i + 2)); [lia|].
      destruct (Z.eqb_spec k (2 * i + 1)); [lia|]. reflexivity.
    - exists nodes. split; [reflexivity|]. split; [reflexivity|]. reflexivity. }
  destruct Hstep as (nodes1 & -> & Hperm1 & Hget1). cbn [bind].
  assert (Hlen1 : len nodes1 = len nodes)
    by (unfold len; rewrite (Permutation_length Hperm1); reflexivity).
  destruct (IH nodes1 (2 * i + 1)) as (nodes2 & -> & Hperm2 & Hget2); [lia..|].
  cbn [bind].
  assert (Hlen2 : len nodes2 = len nodes1)
    by (unfold len; rewrite (Permutation_length Hperm2); reflexivity).
  destruct (IH nodes2 (2 * i + 2)) as (nodes3 & -> & Hperm3 & Hget3); [lia..|].
  exists nodes3. split; [reflexivity|]. split.
  - rewrite Hperm3, Hperm2. assumption.
  - intros k Hk. rewrite Hget3, Hget2, Hget1 by lia. reflexivity.
Qed.

Lemma heapify_children_spec nodes :
  exists nodes',
    heapify_children nodes 0 = Ok nodes' /\
    nodes' ≡ₚ nodes /\ getitem nodes' 0 = getitem nodes 0.
Proof.
  destruct (heapify_children_fuel_spec (S (length nodes)) nodes 0)
    as (nodes' & Hrun & Hperm & Hget); [lia | unfold len; lia |].
  exists nodes'. split; [assumption|]. split; [assumption|]. apply Hget. lia.
Qed.

(** ** The store *)

Lemma for_each_update {A : Type} (f : list Z -> A -> result (list Z)) (r : ref)
    (xs : list A) : forall (σ : store) (l : list Z),
  σ !! r = Some l ->
  for_each xs (fun σ x => update σ r (fun l => f l x)) σ =
  do l' <- for_each xs f l; Ok (<[r := l']> σ).
Proof.
  induction xs as [|x xs IH]; intros σ l Hl; cbn [for_each].
  - cbn [bind]. rewrite list_insert_id by assumption. reflexivity.
  - unfold update at 1, read. rewrite Hl. cbn [bind].
    destruct (f l x) as [l1| | |]; cbn [bind]; try reflexivity.
    unfold write. rewrite (IH (<[r := l1]> σ) l1).
    + destruct (for_each xs f l1); cbn [bind]; try reflexivity.
      rewrite list_insert_insert_eq. reflexivity.
    + apply list_lookup_insert_eq. eapply lookup_lt_Some. eassumption.
Qed.

Lemma heapsort_in_place_run (σ : store) (r : ref) (S : list Z) :
  σ !! r = Some S ->
  heapsort_in_place σ r =
  do heap <- bottom_up_pass S;
  do out <- heapify_children heap 0;
  Ok (r, <[r := out]> (σ ++ [[]])).
Proof.
  intros Hr. unfold heapsort_in_place, new_MinHeap, alloc. cbn [for_each bind nodes].
  assert (Hr1 : (σ ++ [[]]) !! r = Some S) by (apply lookup_app_l_Some; assumption).
  unfold read at 1. rewrite Hr1. cbn [bind].
  rewrite (for_each_update heapify_down r _ _ S Hr1). unfold bottom_up_pass.
  destruct (for_each (range_down (len S / 2) (-1)) heapify_down S) as [heap| | |];
    cbn [bind]; try reflexivity.
  unfold update, read.
  rewrite list_lookup_insert_eq by (eapply lookup_lt_Some; eassumption). cbn [bind].
  destruct (heapify_children heap 0) as [out| | |]; cbn [bind]; try reflexivity.
  unfold write. rewrite list_insert_insert_eq. reflexivity.
Qed.

Lemma heapsort_in_place_result (σ : store) (r : ref) (S heap out : list Z) :
  σ !! r = Some S ->
  bottom_up_pass S = Ok heap ->
  heapify_children heap 0 = Ok out ->
  exists σ', heapsort_in_place σ r = Ok (r, σ') /\ σ' !! r = Some out.
Proof.
  intros Hr Hpass Hchildren. exists (<[r := out]> (σ ++ [[]])). split.
  - rewrite (heapsort_in_place_run σ r S Hr), Hpass. cbn [bind].
    rewrite Hchildren. reflexivity.
  - apply list_lookup_insert_eq. rewrite length_app.
    apply lookup_lt_Some in Hr. lia.
Qed.

(** C1 (as amended): [heapsort_in_place] first calls the down-heapify
    step on every index from [len(S)//2] down to [0] inclusive, which
    leaves a valid min-heap arrangement of [S] in the shared list; it then
    calls [heapify_children(0)] on that heap and returns the shared list,
    whose contents are the outcome of that call and a permutation of
    [S]. *)
Theorem heapsort_in_place_builds_heap (σ : store) (r : ref) (S : list Z) :
  σ !! r = Some S ->
  exists heap out σ',
    range_down (len S / 2) (-1) =
      rev (Z.of_nat <$> seq 0 (Z.to_nat (len S / 2) + 1)) /\
    for_each (range_down (len S / 2) (-1)) heapify_down S = Ok heap /\
    min_heap heap /\ heap ≡ₚ S /\
    heapify_children heap 0 = Ok out /\
    heapsort_in_place σ r = Ok (r, σ') /\
    σ' !! r = Some out /\ out ≡ₚ S.
Proof.
  intros Hr.
  destruct (bottom_up_pass_heap S) as (heap & Hpass & Hperm & Hheap).
  destruct (heapify_children_spec heap) as (out & Hchildren & Hperm' & _).
  destruct (heapsort_in_place_result σ r S heap out Hr Hpass Hchildren)
    as (σ' & Hrun & Hout).
  exists heap, out, σ'.
  split; [apply range_down_to_zero; pose proof (len_nonneg S); Z.div_mod_to_equations; lia|].
  split; [exact Hpass|]. split; [exact Hheap|]. split; [exact Hperm|].
  split; [exact Hchildren|]. split; [exact Hrun|]. split; [exact Hout|].
  etrans; eassumption.
Qed.

Lemma heapsort_in_place_builds_heap_witness :
  [[10; 15; 8; 20; 17]] !! 0%nat = Some [10; 15; 8; 20; 17] /\
  exists heap out σ',
    range_down (len [10; 15; 8; 20; 17] / 2) (-1) =
      rev (Z.of_nat <$> seq 0 (Z.to_nat (len [10; 15; 8; 20; 17] / 2) + 1)) /\
    for_each (range_down (len [10; 15; 8; 20; 17] / 2) (-1)) heapify_down
      [10; 15; 8; 20; 17] = Ok heap /\
    min_heap heap /\ heap ≡ₚ [10; 15; 8; 20; 17] /\
    heapify_children heap 0 = Ok out /\
    heapsort_in_place [[10; 15; 8; 20; 17]] 0%nat = Ok (0%nat, σ') /\
    σ' !! 0%nat = Some out /\ out ≡ₚ [10; 15; 8; 20; 17].
Proof.
  split; [reflexivity|].
  apply (heapsort_in_place_builds_heap [[10; 15; 8; 20; 17]] 0%nat [10; 15; 8; 20; 17]).
  reflexivity.
Defined.

(** C1 as stated fails: on the heap [[1; 5; 2; 6; 7; 3; 4]] the call
    [heapify_children(0)] swaps the two children of the root, and the
    returned sequence [[1; 2; 5; 6; 7; 3; 4]] has [5] above [3]. *)
Lemma heapsort_in_place_not_min_heap :
  ~ (forall (σ : store) (r : ref) (S : list Z),
       σ !! r = Some S ->
       exists out σ' nodes,
         heapsort_in_place σ r = Ok (out, σ') /\
         σ' !! out = Some nodes /\ min_heap nodes).
Proof.
  intros H.
  destruct (H [[1; 5; 2; 6; 7; 3; 4]] 0%nat [1; 5; 2; 6; 7; 3; 4] eq_refl)
    as (out & σ' & nodes & Hrun & Hnodes & Hheap).
  vm_compute in Hrun. injection Hrun as <- <-.
  vm_compute in Hnodes. injection Hnodes as <-.
  revert Hheap. apply min_heapb_false. reflexivity.
Qed.

(** C9: for a non-empty [S], the sequence [heapsort_in_place] returns is
    a permutation of [S] whose element at index 0 is the minimum of [S]:
    the bottom-up pass leaves that minimum at the root of a heap, and
    [heapify_children(0)] keeps index 0 as it is. *)
Theorem heapsort_in_place_root_min (σ : store) (r : ref) (S : list Z) :
  σ !! r = Some S -> S <> [] ->
  exists heap out σ' m,
    heapsort_in_place σ r = Ok (r, σ') /\ σ' !! r = Some out /\
    out ≡ₚ S /\ PyList.getitem out 0 = Ok m /\
    m ∈ S /\ (forall v, v ∈ S -> m <= v) /\
    bottom_up_pass S = Ok heap /\ PyList.getitem heap 0 = Ok m /\
    heapify_children heap 0 = Ok out.
Proof.
  intros Hr Hne.
  destruct (bottom_up_pass_heap S) as (heap & Hpass & Hperm & Hheap).
  destruct (heapify_children_spec heap) as (out & Hchildren & Hperm' & Hroot).
  destruct (heapsort_in_place_result σ r S heap out Hr Hpass Hchildren)
    as (σ' & Hrun & Hout).
  destruct (getitem_in_range heap 0) as [m Hm]; [lia | |].
  { unfold len. rewrite (Permutation_length Hperm). destruct S; [congruence | simpl; lia]. }
  assert (Hmin : forall v, v ∈ heap -> m <= v) by (apply min_heap_root_min; assumption).
  exists heap, out, σ', m.
  split; [exact Hrun|]. split; [exact Hout|]. split; [etrans; eassumption|].
  split; [rewrite Hroot; exact Hm|].
  split; [rewrite <- Hperm; eapply getitem_elem_of; [|eassumption]; lia|].
  split; [intros v Hv; apply Hmin; rewrite Hperm; exact Hv|].
  split; [exact Hpass|]. split; [exact Hm | exact Hchildren].
Qed.

Lemma heapsort_in_place_root_min_witness :
  [[10; 15; 8; 20; 17]] !! 0%nat = Some [10; 15; 8; 20; 17] /\
  [10; 15; 8; 20; 17] <> [] /\
  exists heap out σ' m,
    heapsort_in_place [[10; 15; 8; 20; 17]] 0%nat = Ok (0%nat, σ') /\
    σ' !! 0%nat = Some out /\
    out ≡ₚ [10; 15; 8; 20; 17] /\ PyList.getitem out 0 = Ok m /\
    m ∈ [10; 15; 8; 20; 17] /\ (forall v, v ∈ [10; 15; 8; 20; 17] -> m <= v) /\
    bottom_up_pass [10; 15; 8; 20; 17] = Ok heap /\ PyList.getitem heap 0 = Ok m /\
    heapify_children heap 0 = Ok out.
Proof.
  split; [reflexivity|]. split; [discriminate|].
  apply (heapsort_in_place_root_min [[10; 15; 8; 20; 17]] 0%nat [10; 15; 8; 20; 17]).
  - reflexivity.
  - discriminate.
Defined.

(** ** [heapsort_aux] *)

Lemma poll_loop_run (h s : ref) (n : nat) : forall (a : nat) (σ : store) nodes sorted,
  h <> s -> σ !! h = Some nodes -> σ !! s = Some sorted ->
  for_each (seq a n)
    (fun (σ : store) (_ : nat) =>
       do l <- read σ h;
       do '(polled, l') <- poll l;
       let σ' := write σ h l' in
       match polled with
       | Some v => update σ' s (fun s => Ok (append s v))
       | None => Stuck
       end) σ =
  do '(nodes', sorted') <- drain n nodes sorted;
  Ok (<[s := sorted']> (<[h := nodes']> σ)).
Proof.
  induction n as [|n IH]; intros a σ nodes sorted Hne Hh Hs; cbn [seq for_each drain].
  - cbn [bind]. rewrite (list_insert_id σ h nodes) by assumption.
    rewrite list_insert_id by assumption. reflexivity.
  - unfold read at 1. rewrite Hh. cbn [bind].
    destruct (poll nodes) as [[[v|] nodes1]| | |]; cbn [bind]; try reflexivity.
    unfold update, read, write.
    rewrite list_lookup_insert_ne by assumption. rewrite Hs. cbn [bind].
    rewrite (IH _ _ nodes1 (append sorted v)); [|assumption| |].
    + destruct (drain n nodes1 (append sorted v)) as [[nodes' sorted']| | |];
        cbn [bind]; try reflexivity.
      rewrite (list_insert_insert_ne _ s h) by congruence.
      rewrite list_insert_insert_eq.
      rewrite (list_insert_insert_ne _ h s) by congruence.
      rewrite list_insert_insert_eq. reflexivity.
    + rewrite list_lookup_insert_ne by congruence.
      apply list_lookup_insert_eq. eapply lookup_lt_Some. eassumption.
    + apply list_lookup_insert_eq. rewrite length_insert.
      eapply lookup_lt_Some. eassumption.
Qed.

Lemma heapsort_aux_run (σ : store) (r : ref) (input : list Z) :
  σ !! r = Some input ->
  heapsort_aux σ r =
  do heap0 <- for_each input add [];
  do '(rest, sorted) <- drain (length input) heap0 [];
  Ok (S (length σ),
      <[S (length σ) := sorted]>
        (<[length σ := rest]> (<[length σ := heap0]> (σ ++ [[]]) ++ [[]]))).
Proof.
  intros Hr. unfold heapsort_aux, new_MinHeap, alloc, read at 1.
  rewrite Hr. cbn [bind].
  rewrite (for_each_update add (length σ) input (σ ++ [[]]) []);
    [|apply list_lookup_middle; reflexivity].
  destruct (for_each input add []) as [heap0| | |]; cbn [bind nodes]; try reflexivity.
  assert (Hlen : length (<[length σ := heap0]> (σ ++ [[]])) = S (length σ))
    by (rewrite length_insert, length_app; simpl; lia).
  rewrite Hlen.
  rewrite (poll_loop_run (length σ) (S (length σ)) (length input) 0 _ heap0 []).
  - destruct (drain (length input) heap0 []) as [[rest sorted]| | |]; reflexivity.
  - lia.
  - apply lookup_app_l_Some. apply list_lookup_insert_eq.
    rewrite length_app. simpl. lia.
  - rewrite <- Hlen. apply list_lookup_middle. reflexivity.
Qed.

(** C5: [heapsort_aux] applied to a list object holding
    [[10; 15; 8; 20; 17]] returns a list object holding
    [[8; 10; 15; 17; 20]]; the returned object is not the input object,
    and the input object still holds what it held. *)
Theorem heapsort_aux_example (σ : store) (r : ref) :
  σ !! r = Some [10; 15; 8; 20; 17] ->
  exists out σ',
    heapsort_aux σ r = Ok (out, σ') /\
    σ' !! out = Some [8; 10; 15; 17; 20] /\
    out <> r /\
    σ' !! r = Some [10; 15; 8; 20; 17].
Proof.
  intros Hr. pose proof (lookup_lt_Some _ _ _ Hr) as Hlt.
  assert (Hbuild : for_each [10; 15; 8; 20; 17] add [] = Ok [8; 15; 10; 20; 17])
    by reflexivity.
  assert (Hdrain : drain 5 [8; 15; 10; 20; 17] [] = Ok ([], [8; 10; 15; 17; 20]))
    by reflexivity.
  eexists _, _. split; [|split; [|split]].
  - rewrite (heapsort_aux_run σ r _ Hr), Hbuild. cbn [bind].
    change (length [10; 15; 8; 20; 17]) with 5%nat. rewrite Hdrain. reflexivity.
  - apply list_lookup_insert_eq.
    rewrite length_insert, length_app, length_insert, length_app. simpl. lia.
  - lia.
  - rewrite !list_lookup_insert_ne by lia.
    apply lookup_app_l_Some. rewrite list_lookup_insert_ne by lia.
    apply lookup_app_l_Some. assumption.
Qed.

Lemma heapsort_aux_example_witness :
  [[10; 15; 8; 20; 17]] !! 0%nat = Some [10; 15; 8; 20; 17] /\
  exists out σ',
    heapsort_aux [[10; 15; 8; 20; 17]] 0%nat = Ok (out, σ') /\
    σ' !! out = Some [8; 10; 15; 17; 20] /\
    out <> 0%nat /\
    σ' !! 0%nat = Some [10; 15; 8; 20; 17].
Proof.
  split; [reflexivity|].
  apply (heapsort_aux_example [[10; 15; 8; 20; 17]] 0%nat). reflexivity.
Defined.

(** ** [add] and the truth value of a parent that is [0] *)

Lemma up_ready_heap nodes j :
  up_ready nodes j ->
  (forall p v w, 0 <= p -> child_of j p ->
     getitem nodes p = Ok v -> getitem nodes j = Ok w -> v <= w) ->
  min_heap nodes.
Proof.
  intros [Hpairs _] Hj i Hi c v w Hc Hv Hw.
  destruct (Z.eq_dec c j) as [-> | Hne].
  - apply (Hj i v w); assumption.
  - apply (Hpairs i c v w); assumption.
Qed.

Lemma parent_of_child nodes j :
  1 <= j -> j < len nodes ->
  exists pv,
    getitem nodes (get_parent_index j) = Ok pv /\
    parent nodes j = Ok (Some pv).
Proof.
  intros Hj Hlt. destruct (get_parent_index_spec j Hj) as [Hp _].
  destruct (getitem_in_range nodes (get_parent_index j)) as [pv Hpv]; [lia..|].
  exists pv. split; [assumption|]. unfold parent, has_parent.
  destruct (Z.leb_spec 0 (get_parent_index j)); [|lia].
  rewrite Hpv. reflexivity.
Qed.

(** On a min-heap [__heapify_up] finds nothing to move. *)
Lemma heapify_up_fuel_on_heap fuel nodes child :
  min_heap nodes -> nodes <> [] -> start_of nodes child = len nodes - 1 ->
  heapify_up_fuel (S fuel) nodes child = Ok nodes.
Proof.
  intros Hheap Hne Hstart. cbn [heapify_up_fuel]. fold (start_of nodes child).
  rewrite Hstart.
  assert (Hlen : 1 <= len nodes) by (destruct nodes; [congruence | unfold len; simpl; lia]).
  destruct (Z.eq_dec (len nodes - 1) 0) as [-> | Hlast]; [reflexivity|].
  destruct (parent_of_child nodes (len nodes - 1)) as (pv & Hpv & ->); [lia..|].
  destruct (getitem_in_range nodes (len nodes - 1)) as [c Hc]; [lia..|].
  destruct (get_parent_index_spec (len nodes - 1)) as [Hp Hchild]; [lia|].
  assert (pv <= c)
    by (apply (Hheap (get_parent_index (len nodes - 1)) ltac:(lia) _ pv c Hchild);
        assumption).
  cbn [bind]. destruct (truthy (Some pv)); [|reflexivity].
  rewrite Hc. cbn [bind].
  destruct (Z.ltb_spec c pv); [lia | reflexivity].
Qed.

Lemma heapify_up_fuel_spec fuel : forall nodes child j x,
  start_of nodes child = j -> 0 <= j < len nodes ->
  getitem nodes j = Ok x -> up_ready nodes j ->
  j + 2 <= Z.of_nat fuel ->
  exists nodes',
    heapify_up_fuel fuel nodes child = Ok nodes' /\
    nodes' ≡ₚ nodes /\
    ((forall i, 0 <= i < j -> getitem nodes i <> Ok 0) \/ 0 <= x -> min_heap nodes').
Proof.
  induction fuel as [|fuel IH]; intros nodes child j x Hstart Hj Hx Hready Hfuel; [lia|].
  cbn [heapify_up_fuel]. fold (start_of nodes child). rewrite Hstart. clear Hstart.
  destruct (Z.eq_dec j 0) as [-> | Hj0].
  { exists nodes. split; [reflexivity|]. split; [reflexivity|]. intros _.
    apply (up_ready_heap nodes 0 Hready). intros p v w Hp Hc.
    unfold child_of, get_left_child_index, get_right_child_index in Hc. lia. }
  destruct (parent_of_child nodes j) as (pv & Hpv & ->); [lia..|].
  destruct (get_parent_index_spec j) as [Hp Hchild]; [lia|].
  set (p := get_parent_index j) in *.
  cbn [bind]. rewrite Hx.
  assert (Hstay : pv <= x -> min_heap nodes).
  { intros Hle. apply (up_ready_heap nodes j Hready). intros q v w Hq Hc Hv Hw.
    assert (q = p) as -> by
      (unfold child_of, get_left_child_index, get_right_child_index in *; lia).
    rewrite Hpv in Hv. rewrite Hx in Hw. simplify_eq. assumption. }
  unfold truthy. destruct (Z.eqb_spec pv 0) as [-> | Hpv0]; cbn [negb bind].
  { exists nodes. split; [reflexivity|]. split; [reflexivity|].
    intros [Hnz | Hpos]; [|apply Hstay; assumption].
    exfalso. apply (Hnz p); [lia | assumption]. }
  destruct (Z.ltb_spec x pv) as [Hlt | Hge].
  2:{ exists nodes. split; [reflexivity|]. split; [reflexivity|].
      intros _. apply Hstay. assumption. }
  destruct (swap_in_range nodes j p) as (nodes1 & -> & Hlen1 & Hperm1 & Hget1); [lia..|].
  cbn [bind].
  assert (Hlen1' : len nodes1 = len nodes) by (unfold len; rewrite Hlen1; reflexivity).
  assert (Hready1 : up_ready nodes1 p).
  { destruct Hready as [Hpairs Hbridge].
    unfold child_of, get_left_child_index, get_right_child_index in *. split.
    - intros i c v w Hi Hc Hcp Hv Hw.
      unfold child_of, get_left_child_index, get_right_child_index in Hc.
      rewrite Hget1 in Hv, Hw by lia. unfold exchange in Hv, Hw.
      destruct (Z.eqb_spec c p); [lia|].
      destruct (Z.eqb_spec i j) as [-> | Hij].
      + rewrite Hpv in Hv. simplify_eq.
        destruct (Z.eqb_spec c j); [lia|].
        apply (Hbridge p c v w); auto; lia.
      + destruct (Z.eqb_spec i p) as [-> | Hip].
        * rewrite Hx in Hv. simplify_eq.
          destruct (Z.eqb_spec c j) as [-> | Hcj].
          -- rewrite Hpv in Hw. simplify_eq. lia.
          -- assert (pv <= w); [|lia]. apply (Hpairs p c pv w); auto; lia.
        * destruct (Z.eqb_spec c j); [lia|].
          apply (Hpairs i c v w); auto.
    - intros q c v w Hq Hpq Hc Hv Hw.
      unfold child_of, get_left_child_index, get_right_child_index in Hpq, Hc.
      rewrite Hget1 in Hv, Hw by lia. unfold exchange in Hv, Hw.
      destruct (Z.eqb_spec q j); [lia|]. destruct (Z.eqb_spec q p); [lia|].
      destruct (Z.eqb_spec c p); [lia|].
      assert (v <= pv) by (apply (Hpairs q p v pv); auto; lia).
      destruct (Z.eqb_spec c j) as [-> | Hcj].
      + rewrite Hpv in Hw. simplify_eq. assumption.
      + assert (pv <= w); [|lia]. apply (Hpairs p c pv w); auto; lia. }
  assert (Hx1 : getitem nodes1 p = Ok x).
  { rewrite Hget1 by lia. unfold exchange.
    destruct (Z.eqb_spec p j); [lia|]. rewrite Z.eqb_refl. assumption. }
  destruct (Z.eq_dec p 0) as [Hp0 | Hp0].
  - assert (Hheap1 : min_heap nodes1).
    { apply (up_ready_heap nodes1 p Hready1). intros q v w Hq Hc.
      unfold child_of, get_left_child_index, get_right_child_index in Hc. lia. }
    destruct fuel as [|fuel]; [lia|].
    rewrite heapify_up_fuel_on_heap.
    + exists nodes1. split; [reflexivity|]. split; [assumption|]. intros _. assumption.
    + assumption.
    + intros ->. unfold len in *. simpl in *. lia.
    + unfold start_of. rewrite Hp0. reflexivity.
  - destruct (IH nodes1 (Some p) p x) as (nodes' & Hrun & Hperm & Hheap).
    + unfold start_of. destruct (Z.eqb_spec p 0); [lia | reflexivity].
    + lia.
    + assumption.
    + assumption.
    + lia.
    + exists nodes'. split; [assumption|]. split; [etrans; eassumption|].
      intros Hcond. apply Hheap. destruct Hcond as [Hnz | Hpos]; [left | right; assumption].
      intros i Hi. rewrite Hget1 by lia. unfold exchange.
      destruct (Z.eqb_spec i j); [lia|]. destruct (Z.eqb_spec i p); [lia|].
      apply Hnz. lia.
Qed.

Lemma getitem_append_old (nodes : list Z) x i :
  0 <= i < len nodes -> getitem (append nodes x) i = getitem nodes i.
Proof.
  intros Hi. unfold append. rewrite !getitem_lookup by lia.
  rewrite lookup_app_l by (unfold len in Hi; lia). reflexivity.
Qed.

Lemma getitem_append_new (nodes : list Z) x :
  getitem (append nodes x) (len nodes) = Ok x.
Proof.
  pose proof (len_nonneg nodes). unfold append.
  apply getitem_Ok_lookup; [lia|]. unfold len. rewrite Nat2Z.id.
  apply list_lookup_middle. reflexivity.
Qed.

Lemma len_append (nodes : list Z) x : len (append nodes x) = len nodes + 1.
Proof. unfold len, append. rewrite length_app. simpl. lia. Qed.

(** On a min-heap, [add] returns normally and keeps the elements; the
    invariant holds again unless a stored [0] meets a negative item. *)
Lemma add_spec nodes x :
  min_heap nodes ->
  exists nodes',
    add nodes x = Ok nodes' /\
    nodes' ≡ₚ x :: nodes /\
    (0 ∉ nodes \/ 0 <= x -> min_heap nodes').
Proof.
  intros Hheap. unfold add, heapify_up.
  pose proof (len_nonneg nodes) as Hlen.
  pose proof (len_append nodes x) as Hlen'.
  destruct (heapify_up_fuel_spec
              (S (length (append nodes x) * length (append nodes x)))
              (append nodes x) None (len nodes) x)
    as (nodes' & Hrun & Hperm & Hcond).
  - unfold start_of. lia.
  - lia.
  - apply getitem_append_new.
  - unfold up_ready, child_of, get_left_child_index, get_right_child_index. split.
    + intros i c v w Hi Hc Hne Hv Hw.
      assert (c < len (append nodes x)) by (apply (getitem_Ok_lt _ _ w); [lia | assumption]).
      rewrite getitem_append_old in Hv, Hw by lia.
      apply (Hheap i Hi c v w); [|assumption..].
      unfold child_of, get_left_child_index, get_right_child_index. assumption.
    + intros p c v w Hp Hjp Hc _ Hw.
      apply getitem_Ok_lt in Hw; lia.
  - unfold len in *. nia.
  - exists nodes'. split; [assumption|]. split.
    + rewrite Hperm. unfold append. symmetry. apply Permutation_cons_append.
    + intros Hzero. apply Hcond. destruct Hzero as [Hnz | Hpos]; [left | right; assumption].
      intros i Hi Hget. rewrite getitem_append_old in Hget by lia.
      apply Hnz. eapply getitem_elem_of; [|eassumption]. lia.
Qed.

(** C2: the heap [[0]] satisfies the invariant, [add(-1)] returns
    normally and leaves [[0; -1]], which does not: [__heapify_up] tests
    [self.__parent(child)] for truth before comparing, and the parent [0]
    is false. *)
Theorem add_below_zero_parent :
  min_heap [0] /\ add [0] (-1) = Ok [0; -1] /\ ~ min_heap [0; -1].
Proof.
  split; [apply min_heapb_true; reflexivity|].
  split; [reflexivity|].
  apply min_heapb_false. reflexivity.
Qed.

(** ** [peek] and [is_empty] *)

Lemma is_empty_true nodes : is_empty nodes = true <-> len nodes = 0.
Proof. destruct nodes; unfold len; simpl; split; (congruence || lia). Qed.

Lemma peek_nonempty nodes : nodes <> [] -> peek nodes = Ok (None, nodes).
Proof. destruct nodes; [congruence | reflexivity]. Qed.

Lemma peek_keeps_nodes nodes r nodes' : peek nodes = Ok (r, nodes') -> nodes' = nodes.
Proof. destruct nodes; [discriminate|]. cbn. congruence. Qed.

(** C4: [peek] tests [not self.is_empty()] where it means the opposite:
    on the non-empty heap [[5]] it returns [None] instead of the root [5],
    and on the empty heap it raises [IndexError] instead of returning
    [None]. *)
Theorem peek_inverted_check :
  peek [5] = Ok (None, [5]) /\ peek [] = Raise IndexError.
Proof. split; reflexivity. Qed.

(** ** SinglyLinkedList *)

Lemma SLLNode_chain_ind (P : SLL.SLLNode -> Prop) :
  (forall d, P (SLL.Node d None)) ->
  (forall d n, P n -> P (SLL.Node d (Some n))) ->
  forall node, P node.
Proof.
  intros Hlast Hlink. fix IH 1. intros [d [n|]].
  - apply Hlink, IH.
  - apply Hlast.
Qed.

Lemma iter_from_nonempty node : 1 <= len (SLL.iter_from node).
Proof. destruct node. unfold len. simpl. lia. Qed.

Lemma length_nonneg l : 0 <= SLL.length l.
Proof. unfold SLL.length, SLL.iter. pose proof (iter_from_nonempty (SLL.HEAD l)). lia. Qed.

(** The guard [index < 0 and index > len(self) - 1] is never true. *)
Lemma out_of_range_false l index : SLL.out_of_range l index = false.
Proof.
  unfold SLL.out_of_range. pose proof (length_nonneg l).
  destruct (Z.ltb_spec index 0); [|reflexivity].
  destruct (Z.ltb_spec (SLL.length l - 1) index); [lia | reflexivity].
Qed.

Lemma update_at_not_IndexError steps f : forall node,
  SLL.update_at steps f node <> Raise IndexError.
Proof.
  induction steps as [|k IH]; intros [d [n|]]; simpl; try discriminate.
  specialize (IH n). destruct (SLL.update_at k f n); simpl; congruence.
Qed.

Lemma walk_not_IndexError steps : forall node,
  SLL.walk steps node <> Raise IndexError.
Proof.
  induction steps as [|k IH]; intros [n|]; simpl; try discriminate. apply IH.
Qed.

Lemma indexing_never_IndexError l index d :
  SLL.getitem l index <> Raise IndexError /\
  SLL.setitem l index d <> Raise IndexError /\
  SLL.delitem l index <> Raise IndexError.
Proof.
  unfold SLL.getitem, SLL.setitem, SLL.delitem. rewrite out_of_range_false.
  split; [|split].
  - pose proof (walk_not_IndexError (Z.to_nat index) (Some (SLL.HEAD l))) as H.
    destruct (SLL.walk _ _) as [[n|]| | |]; simpl; congruence.
  - pose proof (update_at_not_IndexError (Z.to_nat (index + 1))
      (fun node => SLL.Node d (SLL.next node)) (SLL.HEAD l)) as H.
    destruct (SLL.update_at _ _ _); simpl; congruence.
  - pose proof (update_at_not_IndexError (Z.to_nat index) SLL.unlink_next (SLL.HEAD l)) as H.
    destruct (SLL.update_at _ _ _); simpl; congruence.
Qed.

(** For an index inside the list the three operators do what their
    names say. *)

Lemma payloads_after_link x n :
  SLL.payloads_after (SLL.Node x (Some n)) = SLL.data n :: SLL.payloads_after n.
Proof. destruct n. reflexivity. Qed.

Lemma payloads_after_last x : SLL.payloads_after (SLL.Node x None) = [].
Proof. reflexivity. Qed.

Lemma length_payloads l : SLL.length l = len (SLL.payloads l).
Proof.
  unfold SLL.length, SLL.payloads, SLL.payloads_after, SLL.iter.
  destruct (SLL.HEAD l) as [x nx]. simpl.
  unfold len. simpl. rewrite length_map. lia.
Qed.

Lemma walk_in_range (k : nat) : forall node,
  (k < List.length (SLL.payloads_after node))%nat ->
  exists m n,
    SLL.walk k (Some node) = Ok (Some m) /\ SLL.next m = Some n /\
    SLL.payloads_after node !! k = Some (SLL.data n).
Proof.
  induction k as [|k IH]; intros [x [n|]] Hk;
    rewrite ?payloads_after_link, ?payloads_after_last in *; simpl in Hk; try lia.
  - exists (SLL.Node x (Some n)), n. repeat split.
  - destruct (IH n) as (m & n' & Hwalk & Hnext & Hdata); [lia|].
    exists m, n'. repeat split; assumption.
Qed.

Lemma update_at_set_in_range d (k : nat) : forall node,
  (k < List.length (SLL.payloads_after node))%nat ->
  exists node',
    SLL.update_at (S k) (fun node => SLL.Node d (SLL.next node)) node = Ok node' /\
    SLL.data node' = SLL.data node /\
    SLL.payloads_after node' = <[k := d]> (SLL.payloads_after node).
Proof.
  induction k as [|k IH]; intros [x [n|]] Hk;
    rewrite ?payloads_after_link, ?payloads_after_last in *; simpl in Hk; try lia.
  - eexists. split; [reflexivity|]. split; [reflexivity|].
    rewrite payloads_after_link. destruct n as [y [m|]]; reflexivity.
  - destruct (IH n) as (n' & Hrun & Hdata & Hpay); [lia|].
    exists (SLL.Node x (Some n')). split.
    + change (SLL.update_at (S (S k)) ?f (SLL.Node x (Some n)))
        with (do n' <- SLL.update_at (S k) f n; Ok (SLL.Node x (Some n'))).
      rewrite Hrun. reflexivity.
    + split; [reflexivity|]. rewrite payloads_after_link, Hdata, Hpay. reflexivity.
Qed.

Lemma update_at_unlink_in_range (k : nat) : forall node,
  (k < List.length (SLL.payloads_after node))%nat ->
  exists node',
    SLL.update_at k SLL.unlink_next node = Ok node' /\
    SLL.data node' = SLL.data node /\
    SLL.payloads_after node' = delete k (SLL.payloads_after node).
Proof.
  induction k as [|k IH]; intros [x [n|]] Hk;
    rewrite ?payloads_after_link, ?payloads_after_last in *; simpl in Hk; try lia.
  - eexists. split; [reflexivity|]. split; [reflexivity|].
    destruct n as [y [m|]]; reflexivity.
  - destruct (IH n) as (n' & Hrun & Hdata & Hpay); [lia|].
    exists (SLL.Node x (Some n')). split.
    + simpl. rewrite Hrun. reflexivity.
    + split; [reflexivity|]. rewrite payloads_after_link, Hdata, Hpay. reflexivity.
Qed.

(** X19: for an index from 0 up to the length (excluded) the indexing
    operators succeed: [__getitem__] returns the data node at that
    position, [__setitem__] replaces the payload at that position and no
    other, and [__delitem__] removes the data node at that position and no
    other. *)
Lemma indexing_in_range l index :
  0 <= index < SLL.length l ->
  (exists n,
     SLL.getitem l index = Ok (Some n) /\
     SLL.payloads l !! Z.to_nat index = Some (SLL.data n)) /\
  (forall d, exists l',
     SLL.setitem l index d = Ok l' /\
     SLL.data (SLL.HEAD l') = SLL.data (SLL.HEAD l) /\
     SLL.payloads l' = <[Z.to_nat index := d]> (SLL.payloads l)) /\
  (exists l',
     SLL.delitem l index = Ok l' /\
     SLL.data (SLL.HEAD l') = SLL.data (SLL.HEAD l) /\
     SLL.payloads l' = delete (Z.to_nat index) (SLL.payloads l)).
Proof.
  intros Hindex. rewrite length_payloads in Hindex. unfold len, SLL.payloads in *.
  assert (Hk : (Z.to_nat index < List.length (SLL.payloads_after (SLL.HEAD l)))%nat) by lia.
  unfold SLL.getitem, SLL.setitem, SLL.delitem. rewrite out_of_range_false.
  split; [|split].
  - destruct (walk_in_range _ _ Hk) as (m & n & -> & Hnext & Hdata).
    exists n. cbn [bind]. rewrite Hnext. split; [reflexivity | assumption].
  - intros d. destruct (update_at_set_in_range d _ _ Hk) as (h & Hrun & Hdata & Hpay).
    replace (Z.to_nat (index + 1)) with (S (Z.to_nat index)) by lia.
    rewrite Hrun. cbn [bind]. eexists. split; [reflexivity|]. split; assumption.
  - destruct (update_at_unlink_in_range _ _ Hk) as (h & Hrun & Hdata & Hpay).
    rewrite Hrun. cbn [bind]. eexists. split; [reflexivity|]. split; assumption.
Qed.

(** C6: the three indexing operators never signal an out-of-range index.
    On the list 1, 2, 3 a negative index is served from the sentinel,
    the index 3 (the length) yields [None] or does nothing, and a larger
    one runs off the chain with [AttributeError]. *)
Theorem index_guard_never_fires :
  SLL.length SLL.one_two_three = 3 /\
  SLL.getitem SLL.one_two_three (-1) = Ok (SLL.next (SLL.HEAD SLL.one_two_three)) /\
  SLL.getitem SLL.one_two_three 3 = Ok None /\
  SLL.getitem SLL.one_two_three 4 = Raise AttributeError /\
  SLL.setitem SLL.one_two_three 3 (SLL.PyInt 9) = Raise AttributeError /\
  SLL.delitem SLL.one_two_three 3 = Ok SLL.one_two_three /\
  SLL.delitem SLL.one_two_three (-1) =
    Ok (SLL.init (Some [SLL.Node (SLL.PyInt 2) None; SLL.Node (SLL.PyInt 3) None])).
Proof. repeat split. Qed.

(** C10: a negative index makes [__getitem__] return what follows the
    sentinel, the first data node, exactly as index 0 does, without
    raising; [__setitem__] at [-1] stores the payload in the sentinel and
    leaves the chain of data nodes as it was. *)
Theorem negative_index_served_from_sentinel (l : SLL.SinglyLinkedList) (index : Z) :
  index < 0 ->
  SLL.getitem l index = Ok (SLL.next (SLL.HEAD l)) /\
  SLL.getitem l index = SLL.getitem l 0 /\
  forall d,
    exists l',
      SLL.setitem l (-1) d = Ok l' /\
      SLL.data (SLL.HEAD l') = d /\
      SLL.next (SLL.HEAD l') = SLL.next (SLL.HEAD l) /\
      SLL.payloads l' = SLL.payloads l.
Proof.
  intros Hneg. unfold SLL.getitem, SLL.setitem. rewrite !out_of_range_false.
  replace (Z.to_nat index) with O by lia. cbn.
  split; [reflexivity|]. split; [reflexivity|]. intros d.
  eexists. split; [reflexivity|]. split; [reflexivity|]. split; [reflexivity|].
  unfold SLL.payloads. cbn. destruct (SLL.HEAD l) as [x [n|]]; reflexivity.
Qed.

Lemma negative_index_served_from_sentinel_witness :
  -2 < 0 /\
  SLL.getitem SLL.one_two_three (-2) = Ok (SLL.next (SLL.HEAD SLL.one_two_three)) /\
  SLL.getitem SLL.one_two_three (-2) = SLL.getitem SLL.one_two_three 0 /\
  forall d,
    exists l',
      SLL.setitem SLL.one_two_three (-1) d = Ok l' /\
      SLL.data (SLL.HEAD l') = d /\
      SLL.next (SLL.HEAD l') = SLL.next (SLL.HEAD SLL.one_two_three) /\
      SLL.payloads l' = SLL.payloads SLL.one_two_three.
Proof.
  split; [lia|].
  apply (negative_index_served_from_sentinel SLL.one_two_three (-2)). lia.
Defined.

(** *** [remove] *)

Lemma remove_from_absent d : forall node,
  (forall x, x ∈ SLL.payloads_after node -> SLL.py_eq x d = false) ->
  SLL.remove_from node d = Raise AttributeError.
Proof.
  induction node as [x | x n IH] using SLLNode_chain_ind; intros Habsent; [reflexivity|].
  rewrite payloads_after_link in Habsent. simpl.
  rewrite (Habsent (SLL.data n)) by apply list_elem_of_here.
  rewrite IH; [reflexivity|].
  intros y Hy. apply Habsent. apply list_elem_of_further. assumption.
Qed.

Lemma remove_from_present d : forall node,
  (exists x, x ∈ SLL.payloads_after node /\ SLL.py_eq x d = true) ->
  exists node',
    SLL.remove_from node d = Ok node' /\
    SLL.data node' = SLL.data node /\
    SLL.payloads_after node' = SLL.without_first d (SLL.payloads_after node).
Proof.
  induction node as [x | x n IH] using SLLNode_chain_ind; intros (y & Hy & Heq).
  - apply elem_of_nil in Hy. contradiction.
  - rewrite payloads_after_link in *. simpl.
    destruct (SLL.py_eq (SLL.data n) d) eqn:Hd.
    + eexists. split; [reflexivity|]. split; [reflexivity|].
      destruct n as [z [m|]]; reflexivity.
    + destruct IH as (n' & Hrun & Hdata & Hpay).
      { apply elem_of_cons in Hy as [-> | Hy]; [congruence|]. eauto. }
      rewrite Hrun. simpl. eexists. split; [reflexivity|]. split; [reflexivity|].
      rewrite payloads_after_link, Hdata, Hpay. reflexivity.
Qed.

Lemma remove_empty l d :
  SLL.next (SLL.HEAD l) = None -> SLL.remove l d = Ok (SLL.ReturnedNone, l).
Proof. intros H. unfold SLL.remove. rewrite H. reflexivity. Qed.

(** X18: [remove] of a payload that some data node carries returns
    [self] after unlinking the first data node that carries it: the other
    payloads stay in order and the sentinel is untouched. *)
Lemma remove_present l d :
  (exists x, x ∈ SLL.payloads l /\ SLL.py_eq x d = true) ->
  exists l',
    SLL.remove l d = Ok (SLL.ReturnedSelf, l') /\
    SLL.data (SLL.HEAD l') = SLL.data (SLL.HEAD l) /\
    SLL.payloads l' = SLL.without_first d (SLL.payloads l).
Proof.
  intros Hin. destruct (remove_from_present d (SLL.HEAD l) Hin) as (h & Hrun & Hdata & Hpay).
  unfold SLL.remove. destruct (SLL.next (SLL.HEAD l)) eqn:Hnext.
  - rewrite Hrun. simpl. eexists. split; [reflexivity|]. split; assumption.
  - destruct Hin as (x & Hx & _). unfold SLL.payloads in Hx.
    destruct (SLL.HEAD l) as [y [n|]]; [discriminate|].
    apply elem_of_nil in Hx. contradiction.
Qed.

Lemma remove_absent l d :
  SLL.next (SLL.HEAD l) <> None ->
  (forall x, x ∈ SLL.payloads l -> SLL.py_eq x d = false) ->
  SLL.remove l d = Raise AttributeError.
Proof.
  intros Hne Habsent. unfold SLL.remove.
  destruct (SLL.next (SLL.HEAD l)); [|congruence].
  rewrite remove_from_absent by assumption. reflexivity.
Qed.

(** C7: on the list 1, 2, 3, which does not hold 7, [remove(7)] does not
    complete silently: the loop reads [node.next.data] at the last node,
    whose [next] is [None], and raises [AttributeError]. *)
Theorem remove_absent_raises :
  SLL.payloads SLL.one_two_three = [SLL.PyInt 1; SLL.PyInt 2; SLL.PyInt 3] /\
  SLL.remove SLL.one_two_three (SLL.PyInt 7) = Raise AttributeError.
Proof. split; reflexivity. Qed.

(** *** [contains] and [find] *)

Lemma contains_find_nonempty l d :
  SLL.next (SLL.HEAD l) <> None ->
  (SLL.contains l d = true <-> SLL.find l d <> None).
Proof.
  intros Hne. unfold SLL.contains, SLL.find.
  destruct (SLL.next (SLL.HEAD l)); [|congruence].
  destruct (SLL.first_with_data (SLL.iter l) d); split; congruence.
Qed.

Lemma contains_find_empty l d :
  SLL.next (SLL.HEAD l) = None ->
  SLL.find l d = None /\ SLL.contains l d = SLL.py_eq (SLL.data (SLL.HEAD l)) d.
Proof.
  intros Hnone. unfold SLL.contains, SLL.find, SLL.iter. rewrite Hnone.
  split; [reflexivity|].
  destruct (SLL.HEAD l) as [x nx]. simpl in Hnone. subst nx. simpl.
  destruct (SLL.py_eq x d); reflexivity.
Qed.

(** C8: on the empty list and the payload ["HEAD"], [contains] is true,
    because its loop starts at the sentinel, which carries that string,
    while [find] returns [None], because it returns early on an empty
    list. *)
Theorem contains_sentinel_find_none :
  SLL.contains SLL.new (SLL.PyStr "HEAD") = true /\
  SLL.find SLL.new (SLL.PyStr "HEAD") = None.
Proof. split; reflexivity. Qed.

(** * Further properties of the code *)

(** ** [__swap] *)


(** X1: on two valid indices [__swap] exchanges exactly those two
    positions and keeps the length and the elements. *)
Theorem swap_exchanges (nodes : list Z) (i j : Z) :
  0 <= i < len nodes -> 0 <= j < len nodes ->
  exists nodes',
    swap nodes i j = Ok nodes' /\
    length nodes' = length nodes /\
    PyList.getitem nodes' i = PyList.getitem nodes j /\
    PyList.getitem nodes' j = PyList.getitem nodes i /\
    (forall k, 0 <= k -> k <> i -> k <> j ->
       PyList.getitem nodes' k = PyList.getitem nodes k) /\
    nodes' ≡ₚ nodes.
Proof.
  intros Hi Hj.
  destruct (swap_in_range nodes i j Hi Hj) as (nodes' & Hrun & Hlen & Hperm & Hget).
  exists nodes'. split; [assumption|]. split; [assumption|].
  split; [|split; [|split; [|assumption]]].
  - rewrite Hget by lia. unfold exchange. rewrite Z.eqb_refl. reflexivity.
  - rewrite Hget by lia. unfold exchange. rewrite Z.eqb_refl.
    destruct (Z.eqb_spec j i) as [-> | _]; reflexivity.
  - intros k Hk Hki Hkj. rewrite Hget by lia. unfold exchange.
    destruct (Z.eqb_spec k i); [lia|]. destruct (Z.eqb_spec k j); [lia|]. reflexivity.
Qed.

Lemma swap_exchanges_witness :
  0 <= 0 < len [4; 5; 6] /\ 0 <= 2 < len [4; 5; 6] /\
  exists nodes',
    swap [4; 5; 6] 0 2 = Ok nodes' /\
    length nodes' = length [4; 5; 6] /\
    PyList.getitem nodes' 0 = PyList.getitem [4; 5; 6] 2 /\
    PyList.getitem nodes' 2 = PyList.getitem [4; 5; 6] 0 /\
    (forall k, 0 <= k -> k <> 0 -> k <> 2 ->
       PyList.getitem nodes' k = PyList.getitem [4; 5; 6] k) /\
    nodes' ≡ₚ [4; 5; 6].
Proof.
  split; [unfold len; simpl; lia|]. split; [unfold len; simpl; lia|].
  apply (swap_exchanges [4; 5; 6] 0 2); unfold len; simpl; lia.
Defined.



(** ** [__heapify_down] on any list *)

Lemma heapify_down_fuel_total fuel : forall nodes j,
  0 <= j -> Z.max 0 (len nodes - j) < Z.of_nat fuel ->
  exists nodes',
    heapify_down_fuel fuel nodes j = Ok nodes' /\
    nodes' ≡ₚ nodes /\
    forall i, 0 <= i < j -> PyList.getitem nodes' i = PyList.getitem nodes i.
Proof.
  induction fuel as [|fuel IH]; intros nodes j Hj Hfuel; [lia|].
  cbn [heapify_down_fuel].
  destruct (Z.leb_spec (len nodes) j) as [Hout | Hin]; cbn [orb];
    [exists nodes; split; [reflexivity|]; split; reflexivity|].
  unfold has_left_child.
  destruct (Z.ltb_spec (get_left_child_index j) (len nodes)) as [Hl | Hl]; cbn [negb];
    [|exists nodes; split; [reflexivity|]; split; reflexivity].
  destruct (smaller_child_idx_spec nodes j) as (s & b & -> & Hcs & Hslen & Hb & _);
    [lia | assumption |].
  destruct (getitem_in_range nodes j) as [a ->]; [lia..|]. cbn [bind].
  rewrite Hb. cbn [bind].
  assert (Hjs : j < s)
    by (unfold child_of, get_left_child_index, get_right_child_index in Hcs; lia).
  destruct (a <? b); [exists nodes; split; [reflexivity|]; split; reflexivity|].
  destruct (b <? a); [|exists nodes; split; [reflexivity|]; split; reflexivity].
  destruct (swap_in_range nodes j s) as (nodes1 & -> & Hlen1 & Hperm1 & Hget1); [lia..|].
  cbn [bind].
  destruct (IH nodes1 s) as (nodes' & Hrun & Hperm & Hget);
    [lia | unfold len in *; rewrite Hlen1; lia |].
  exists nodes'. split; [assumption|]. split; [etrans; eassumption|].
  intros i Hi. rewrite Hget, Hget1 by lia. unfold exchange.
  destruct (Z.eqb_spec i j); [lia|]. destruct (Z.eqb_spec i s); [lia|]. reflexivity.
Qed.

(** X3: on any list, heap or not, and any index from 0 on,
    [__heapify_down] returns without raising; it only rearranges the
    list, and the positions before the index keep their elements. *)
Theorem heapify_down_total (nodes : list Z) (index : Z) :
  0 <= index ->
  exists nodes',
    heapify_down nodes index = Ok nodes' /\
    nodes' ≡ₚ nodes /\
    forall i, 0 <= i < index -> PyList.getitem nodes' i = PyList.getitem nodes i.
Proof.
  intros Hindex. unfold heapify_down.
  apply heapify_down_fuel_total; [assumption | unfold len; lia].
Qed.

Lemma heapify_down_total_witness :
  0 <= 1 /\
  exists nodes',
    heapify_down [3; 9; 1; 4; 2] 1 = Ok nodes' /\
    nodes' ≡ₚ [3; 9; 1; 4; 2] /\
    forall i, 0 <= i < 1 ->
      PyList.getitem nodes' i = PyList.getitem [3; 9; 1; 4; 2] i.
Proof.
  split; [lia|]. apply (heapify_down_total [3; 9; 1; 4; 2] 1). lia.
Defined.

Lemma heap_fromb_true nodes (k : nat) :
  heap_fromb nodes k = true -> heap_from nodes (Z.of_nat k).
Proof.
  unfold heap_fromb, heap_from. intros Hb i Hi.
  destruct (Z.lt_ge_cases i (len nodes)) as [Hlt | Hge].
  - rewrite forallb_forall in Hb.
    replace i with (Z.of_nat (Z.to_nat i)) by lia.
    apply heap_ok_atb_true, Hb, in_seq. unfold len in Hlt. lia.
  - apply heap_ok_at_past_end. assumption.
Qed.

(** X4: if the invariant holds at every index after [k], then
    [__heapify_down(k)] makes it hold from [k] on, and the list keeps its
    elements. *)
Theorem heapify_down_restores (nodes : list Z) (k : Z) :
  0 <= k -> heap_from nodes (k + 1) ->
  exists nodes',
    heapify_down nodes k = Ok nodes' /\ nodes' ≡ₚ nodes /\ heap_from nodes' k.
Proof. intros Hk Hheap. apply heapify_down_heap; assumption. Qed.

Lemma heapify_down_restores_witness :
  0 <= 1 /\ heap_from [3; 9; 1; 4; 2] (1 + 1) /\
  exists nodes',
    heapify_down [3; 9; 1; 4; 2] 1 = Ok nodes' /\
    nodes' ≡ₚ [3; 9; 1; 4; 2] /\ heap_from nodes' 1.
Proof.
  assert (H : heap_from [3; 9; 1; 4; 2] (1 + 1))
    by (apply (heap_fromb_true [3; 9; 1; 4; 2] 2); reflexivity).
  split; [lia|]. split; [exact H|].
  apply (heapify_down_restores [3; 9; 1; 4; 2] 1); [lia | exact H].
Defined.

(** ** [poll] on any list *)

(** X5: on any non-empty list, heap or not, [poll] returns the element
    at index 0 without raising, and the list it leaves holds the other
    elements. *)
Theorem poll_takes_first (x : Z) (t : list Z) :
  exists nodes',
    poll (x :: t) = Ok (Some x, nodes') /\ x :: nodes' ≡ₚ x :: t /\
    length nodes' = length t.
Proof.
  assert (Hroot : PyList.getitem (x :: t) 0 = Ok x)
    by (apply getitem_Ok_lookup; [lia | reflexivity]).
  destruct (poll_shrink x t) as (y & nodes2 & Hlast & Hset & Hdel & Hperm2 & _).
  destruct (heapify_down_fuel_total (S (length nodes2)) nodes2 0)
    as (nodes3 & Hdown & Hperm3 & _); [lia | unfold len; lia |].
  exists nodes3. split; [|split].
  - unfold poll. cbn [is_empty]. rewrite Hroot. cbn [bind].
    rewrite Hlast. cbn [bind]. rewrite Hset. cbn [bind].
    rewrite Hdel. cbn [bind]. unfold heapify_down. rewrite Hdown. reflexivity.
  - rewrite Hperm3. assumption.
  - apply Permutation_length in Hperm2. apply Permutation_length in Hperm3.
    simpl in Hperm2. lia.
Qed.

(** ** [add], the constructor and [heapsort_aux] *)

(** X6: on a min-heap [add] returns without raising and the list holds
    the old elements and the new item; the invariant holds again provided
    no stored element is [0] or the item is not negative. *)
Theorem add_keeps_heap (nodes : list Z) (x : Z) :
  min_heap nodes ->
  exists nodes',
    add nodes x = Ok nodes' /\
    nodes' ≡ₚ x :: nodes /\
    (0 ∉ nodes \/ 0 <= x -> min_heap nodes').
Proof. apply add_spec. Qed.

Lemma add_keeps_heap_witness :
  min_heap [1; 3; 2; 7] /\
  exists nodes',
    add [1; 3; 2; 7] (-4) = Ok nodes' /\
    nodes' ≡ₚ (-4) :: [1; 3; 2; 7] /\
    (0 ∉ [1; 3; 2; 7] \/ 0 <= -4 -> min_heap nodes').
Proof.
  assert (H : min_heap [1; 3; 2; 7]) by (apply min_heapb_true; reflexivity).
  split; [exact H|]. apply (add_keeps_heap [1; 3; 2; 7] (-4) H).
Defined.

Lemma min_heap_nil : min_heap [].
Proof. apply min_heapb_true. reflexivity. Qed.

Lemma add_loop_heap (init : list Z) : forall acc,
  min_heap acc ->
  (forall x, x ∈ init -> 0 <= x) \/ ((0 ∉ acc) /\ (0 ∉ init)) ->
  exists heap,
    for_each init add acc = Ok heap /\ min_heap heap /\ heap ≡ₚ acc ++ init.
Proof.
  induction init as [|x init IH]; intros acc Hheap Hsafe; cbn [for_each].
  - exists acc. split; [reflexivity|]. split; [assumption|].
    rewrite app_nil_r. reflexivity.
  - destruct (add_spec acc x Hheap) as (acc1 & -> & Hperm1 & Hheap1). cbn [bind].
    destruct (IH acc1) as (heap & Hrun & Hheap' & Hperm).
    + apply Hheap1. destruct Hsafe as [Hpos | [Hacc _]]; [right | left; assumption].
      apply Hpos. apply list_elem_of_here.
    + destruct Hsafe as [Hpos | [Hacc Hinit]]; [left | right].
      * intros y Hy. apply Hpos. apply list_elem_of_further. assumption.
      * apply not_elem_of_cons in Hinit as [Hx Hinit]. split; [|assumption].
        rewrite Hperm1. apply not_elem_of_cons. split; assumption.
    + exists heap. split; [assumption|]. split; [assumption|].
      rewrite Hperm, Hperm1. simpl. apply Permutation_middle.
Qed.

(** X7: the constructor [MinHeap(nodes)] called with integers that are
    all non-negative, or none of them [0], creates a new list object that
    is a min-heap holding exactly those integers, and leaves the objects
    that existed alone. *)
Theorem new_MinHeap_builds_heap (σ : store) (init : list Z) :
  (forall x, x ∈ init -> 0 <= x) \/ 0 ∉ init ->
  exists heap,
    new_MinHeap σ init = Ok ({| nodes := length σ |}, σ ++ [heap]) /\
    min_heap heap /\ heap ≡ₚ init.
Proof.
  intros Hsafe.
  destruct (add_loop_heap init []) as (heap & Hrun & Hheap & Hperm).
  - apply min_heap_nil.
  - destruct Hsafe as [Hpos | Hnz]; [left; assumption | right].
    split; [apply not_elem_of_nil | assumption].
  - exists heap. split; [|split; assumption].
    unfold new_MinHeap, alloc.
    rewrite (for_each_update add (length σ) init (σ ++ [[]]) [])
      by (apply list_lookup_middle; reflexivity).
    rewrite Hrun. cbn [bind].
    rewrite insert_app_r_alt by lia. rewrite Nat.sub_diag. reflexivity.
Qed.

Lemma new_MinHeap_builds_heap_witness :
  ((forall x, x ∈ [10; 15; 8; 20; 17] -> 0 <= x) \/ 0 ∉ [10; 15; 8; 20; 17]) /\
  exists heap,
    new_MinHeap [[7]] [10; 15; 8; 20; 17] = Ok ({| nodes := 1%nat |}, [[7]] ++ [heap]) /\
    min_heap heap /\ heap ≡ₚ [10; 15; 8; 20; 17].
Proof.
  assert (H : (forall x, x ∈ [10; 15; 8; 20; 17] -> 0 <= x) \/ 0 ∉ [10; 15; 8; 20; 17]).
  { right. intros Hin. apply list_elem_of_In in Hin. simpl in Hin.
    repeat (destruct Hin as [Hin | Hin]; [discriminate Hin|]). exact Hin. }
  split; [exact H|]. apply (new_MinHeap_builds_heap [[7]] [10; 15; 8; 20; 17] H).
Defined.

Lemma poll_on_heap (nodes : list Z) :
  min_heap nodes -> nodes <> [] ->
  exists m nodes',
    poll nodes = Ok (Some m, nodes') /\
    (forall v, v ∈ nodes -> m <= v) /\
    min_heap nodes' /\ nodes ≡ₚ m :: nodes'.
Proof.
  intros Hheap Hne. destruct nodes as [|x t]; [congruence|]. clear Hne.
  assert (Hroot : PyList.getitem (x :: t) 0 = Ok x)
    by (apply getitem_Ok_lookup; [lia | reflexivity]).
  destruct (poll_shrink x t) as (y & nodes2 & Hlast & Hset & Hdel & Hperm2 & Hget2).
  destruct (heapify_down_heap nodes2 0) as (nodes3 & Hdown & Hperm3 & Hheap3); [lia | |].
  { intros i Hi c v w Hc Hv Hw.
    apply (Hheap i ltac:(lia) c v w Hc); apply Hget2; try assumption; try lia.
    unfold child_of, get_left_child_index, get_right_child_index in Hc. lia. }
  exists x, nodes3. split; [|split; [|split]].
  - unfold poll. cbn [is_empty]. rewrite Hroot. cbn [bind].
    rewrite Hlast. cbn [bind]. rewrite Hset. cbn [bind].
    rewrite Hdel. cbn [bind]. rewrite Hdown. reflexivity.
  - apply min_heap_root_min; assumption.
  - exact Hheap3.
  - rewrite Hperm3. symmetry. exact Hperm2.
Qed.

Lemma StronglySorted_snoc (l : list Z) (m : Z) :
  StronglySorted Z.le l -> (forall a, a ∈ l -> a <= m) ->
  StronglySorted Z.le (l ++ [m]).
Proof.
  induction l as [|a l IH]; intros Hsorted Hle; simpl.
  - repeat constructor.
  - apply StronglySorted_inv in Hsorted as [Hl Ha]. constructor.
    + apply IH; [assumption|]. intros b Hb. apply Hle. apply list_elem_of_further. assumption.
    + apply Forall_app. split; [assumption|]. constructor; [|constructor].
      apply Hle. apply list_elem_of_here.
Qed.

Lemma drain_sorted (n : nat) : forall nodes sorted,
  min_heap nodes -> length nodes = n ->
  StronglySorted Z.le sorted ->
  (forall a b, a ∈ sorted -> b ∈ nodes -> a <= b) ->
  exists out,
    drain n nodes sorted = Ok ([], out) /\
    StronglySorted Z.le out /\ out ≡ₚ sorted ++ nodes.
Proof.
  induction n as [|n IH]; intros nodes sorted Hheap Hlen Hsorted Hle; cbn [drain].
  - destruct nodes; [|discriminate]. exists sorted.
    split; [reflexivity|]. split; [assumption|]. rewrite app_nil_r. reflexivity.
  - destruct (poll_on_heap nodes Hheap) as (m & nodes' & -> & Hmin & Hheap' & Hperm).
    { intros ->. discriminate. }
    cbn [bind].
    assert (Hm : m ∈ nodes) by (rewrite Hperm; apply list_elem_of_here).
    destruct (IH nodes' (append sorted m)) as (out & Hrun & Hout & Hperm').
    + assumption.
    + apply Permutation_length in Hperm. simpl in Hperm. lia.
    + apply StronglySorted_snoc; [assumption|]. intros a Ha. apply Hle; assumption.
    + intros a b Ha Hb.
      assert (Hb' : b ∈ nodes) by (rewrite Hperm; apply list_elem_of_further; assumption).
      unfold append in Ha. apply elem_of_app in Ha as [Ha | Ha].
      * apply Hle; assumption.
      * apply list_elem_of_singleton in Ha as ->. apply Hmin. assumption.
    + exists out. split; [assumption|]. split; [assumption|].
      rewrite Hperm', Hperm. unfold append. rewrite <- app_assoc. reflexivity.
Qed.

(** X8: called on a list object whose integers are all non-negative, or
    none of them [0], [heapsort_aux] returns a new list object holding
    those integers in ascending order; the input object and every other
    object that existed keep their contents. *)
Theorem heapsort_aux_sorts (σ : store) (r : ref) (input : list Z) :
  σ !! r = Some input ->
  (forall x, x ∈ input -> 0 <= x) \/ 0 ∉ input ->
  exists out σ' sorted,
    heapsort_aux σ r = Ok (out, σ') /\
    σ' !! out = Some sorted /\
    StronglySorted Z.le sorted /\ sorted ≡ₚ input /\
    σ !! out = None /\
    forall r' l, σ !! r' = Some l -> σ' !! r' = Some l.
Proof.
  intros Hr Hsafe.
  destruct (add_loop_heap input []) as (heap & Hbuild & Hheap & Hperm).
  { apply min_heap_nil. }
  { destruct Hsafe as [Hpos | Hnz]; [left; assumption | right].
    split; [apply not_elem_of_nil | assumption]. }
  simpl in Hperm.
  destruct (drain_sorted (length input) heap []) as (sorted & Hdrain & Hsorted & Hperm').
  { assumption. }
  { apply Permutation_length. assumption. }
  { constructor. }
  { intros a b Ha. apply elem_of_nil in Ha. contradiction. }
  simpl in Hperm'.
  eexists _, _, sorted. split; [|split; [|split; [|split; [|split]]]].
  - rewrite (heapsort_aux_run σ r input Hr), Hbuild. cbn [bind].
    rewrite Hdrain. reflexivity.
  - apply list_lookup_insert_eq.
    rewrite length_insert, length_app, length_insert, length_app. simpl. lia.
  - assumption.
  - rewrite Hperm'. assumption.
  - apply lookup_ge_None_2. lia.
  - intros r' l Hl. pose proof (lookup_lt_Some _ _ _ Hl).
    rewrite !list_lookup_insert_ne by lia.
    apply lookup_app_l_Some. rewrite list_lookup_insert_ne by lia.
    apply lookup_app_l_Some. assumption.
Qed.

Lemma heapsort_aux_sorts_witness :
  [[3; -1; 2]] !! 0%nat = Some [3; -1; 2] /\
  ((forall x, x ∈ [3; -1; 2] -> 0 <= x) \/ 0 ∉ [3; -1; 2]) /\
  exists out σ' sorted,
    heapsort_aux [[3; -1; 2]] 0%nat = Ok (out, σ') /\
    σ' !! out = Some sorted /\
    StronglySorted Z.le sorted /\ sorted ≡ₚ [3; -1; 2] /\
    [[3; -1; 2]] !! out = None /\
    forall r' l, [[3; -1; 2]] !! r' = Some l -> σ' !! r' = Some l.
Proof.
  assert (H : (forall x, x ∈ [3; -1; 2] -> 0 <= x) \/ 0 ∉ [3; -1; 2]).
  { right. intros Hin. apply list_elem_of_In in Hin. simpl in Hin.
    repeat (destruct Hin as [Hin | Hin]; [discriminate Hin|]). exact Hin. }
  split; [reflexivity|]. split; [exact H|].
  apply (heapsort_aux_sorts [[3; -1; 2]] 0%nat [3; -1; 2] eq_refl H).
Defined.

(** ** [heapify_children] orders siblings *)

Lemma within_ge a k : 0 <= a -> within a k -> a <= k.
Proof.
  intros Ha H. induction H; unfold get_left_child_index, get_right_child_index; lia.
Qed.

Lemma within_left_up a k : within (get_left_child_index a) k -> within a k.
Proof.
  intros H. induction H.
  - apply within_left, within_root.
  - apply within_left. assumption.
  - apply within_right. assumption.
Qed.

Lemma within_right_up a k : within (get_right_child_index a) k -> within a k.
Proof.
  intros H. induction H.
  - apply within_right, within_root.
  - apply within_left. assumption.
  - apply within_right. assumption.
Qed.

Lemma within_split a k :
  within a k ->
  k = a \/ within (get_left_child_index a) k \/ within (get_right_child_index a) k.
Proof.
  intros H. induction H as [|k H IH|k H IH].
  - left. reflexivity.
  - right. destruct IH as [-> | [IH | IH]].
    + left. apply within_root.
    + left. apply within_left. assumption.
    + right. apply within_left. assumption.
  - right. destruct IH as [-> | [IH | IH]].
    + right. apply within_root.
    + left. apply within_right. assumption.
    + right. apply within_right. assumption.
Qed.

Lemma within_parent a m : within a m -> m <> a -> within a (get_parent_index m).
Proof.
  intros H Hne. destruct H as [|k H|k H]; [congruence| |].
  - replace (get_parent_index (get_left_child_index k)) with k; [assumption|].
    unfold get_parent_index, get_left_child_index. Z.div_mod_to_equations. lia.
  - replace (get_parent_index (get_right_child_index k)) with k; [assumption|].
    unfold get_parent_index, get_right_child_index. Z.div_mod_to_equations. lia.
Qed.

Lemma siblings_disjoint i m :
  0 <= i ->
  within (get_left_child_index i) m -> within (get_right_child_index i) m -> False.
Proof.
  intros Hi. revert m.
  induction m as [m IH] using (well_founded_induction (Z.lt_wf 0)).
  intros Hl Hr.
  assert (Hge : get_right_child_index i <= m)
    by (apply within_ge; [unfold get_right_child_index; lia | assumption]).
  unfold get_left_child_index, get_right_child_index in *.
  destruct (get_parent_index_spec m) as [Hp _]; [lia|].
  assert (Hl' : within (2 * i + 1) (get_parent_index m))
    by (apply (within_parent (2 * i + 1) m); [assumption | lia]).
  destruct (Z.eq_dec m (2 * i + 2)) as [-> | Hne].
  - apply within_ge in Hl'; [|lia].
    unfold get_parent_index in Hl'. Z.div_mod_to_equations. lia.
  - apply (IH (get_parent_index m)); [lia | assumption |].
    apply (within_parent (2 * i + 2) m); assumption.
Qed.

Lemma within_zero k : 0 <= k -> within 0 k.
Proof.
  induction k as [k IH] using (well_founded_induction (Z.lt_wf 0)). intros Hk.
  destruct (Z.eq_dec k 0) as [-> | Hne]; [apply within_root|].
  destruct (get_parent_index_spec k) as [Hp [Hc | Hc]]; [lia | |];
    rewrite Hc; [apply within_left | apply within_right]; apply IH; lia.
Qed.

Lemma heapify_children_fuel_order fuel : forall nodes i,
  0 <= i -> Z.max 0 (len nodes - i) < Z.of_nat fuel ->
  exists nodes',
    heapify_children_fuel fuel nodes i = Ok nodes' /\
    nodes' ≡ₚ nodes /\
    (forall k, 0 <= k ->
       ~ within (get_left_child_index i) k -> ~ within (get_right_child_index i) k ->
       PyList.getitem nodes' k = PyList.getitem nodes k) /\
    (forall k l r,
       within i k ->
       left_child nodes' k = Ok l -> right_child nodes' k = Ok r -> l <= r).
Proof.
  induction fuel as [|fuel IH]; intros nodes i Hi Hfuel; [lia|].
  cbn [heapify_children_fuel].
  assert (Hleaf : len nodes <= get_right_child_index i ->
    forall k l r, within i k ->
      left_child nodes k = Ok l -> right_child nodes k = Ok r -> l <= r).
  { intros Hno k l r Hk _ Hr. apply within_ge in Hk; [|assumption].
    unfold right_child, get_right_child_index in *.
    apply getitem_Ok_lt in Hr; lia. }
  unfold has_left_child, has_right_child.
  destruct (Z.ltb_spec (get_left_child_index i) (len nodes)) as [Hl | Hl]; cbn [negb].
  2:{ exists nodes. split; [reflexivity|]. split; [reflexivity|].
      split; [reflexivity|]. apply Hleaf.
      unfold get_left_child_index, get_right_child_index in *. lia. }
  destruct (Z.ltb_spec (get_right_child_index i) (len nodes)) as [Hr | Hr]; cbn [negb].
  2:{ exists nodes. split; [reflexivity|]. split; [reflexivity|].
      split; [reflexivity|]. apply Hleaf. assumption. }
  clear Hleaf. set (L := get_left_child_index i) in *.
  set (R := get_right_child_index i) in *.
  assert (HLR : L = 2 * i + 1 /\ R = 2 * i + 2) by (split; reflexivity).
  unfold right_child at 1, left_child at 1. fold L R.
  destruct (getitem_in_range nodes R) as [r Hgr]; [lia..|].
  destruct (getitem_in_range nodes L) as [l Hgl]; [lia..|].
  rewrite Hgr, Hgl. cbn [bind].
  assert (Hstep : exists nodes1 l1 r1,
    (if r <? l then swap nodes R L else Ok nodes) = Ok nodes1 /\
    nodes1 ≡ₚ nodes /\
    PyList.getitem nodes1 L = Ok l1 /\ PyList.getitem nodes1 R = Ok r1 /\ l1 <= r1 /\
    forall k, 0 <= k -> k <> L -> k <> R ->
      PyList.getitem nodes1 k = PyList.getitem nodes k).
  { destruct (Z.ltb_spec r l).
    - destruct (swap_in_range nodes R L) as (nodes1 & Hswap & _ & Hperm1 & Hget1); [lia..|].
      exists nodes1, r, l. split; [assumption|]. split; [assumption|].
      split; [|split; [|split; [lia|]]].
      + rewrite Hget1 by lia. unfold exchange.
        destruct (Z.eqb_spec L R); [lia|]. rewrite Z.eqb_refl. assumption.
      + rewrite Hget1 by lia. unfold exchange. rewrite Z.eqb_refl. assumption.
      + intros k Hk HkL HkR. rewrite Hget1 by lia. unfold exchange.
        destruct (Z.eqb_spec k R); [lia|]. destruct (Z.eqb_spec k L); [lia|]. reflexivity.
    - exists nodes, l, r. split; [reflexivity|]. split; [reflexivity|].
      split; [assumption|]. split; [assumption|]. split; [lia|]. reflexivity. }
  destruct Hstep as (nodes1 & l1 & r1 & -> & Hperm1 & Hl1 & Hr1 & Hle1 & Hget1).
  cbn [bind].
  assert (Hlen1 : len nodes1 = len nodes)
    by (unfold len; rewrite (Permutation_length Hperm1); reflexivity).
  destruct (IH nodes1 L) as (nodes2 & -> & Hperm2 & Hframe2 & Horder2); [lia..|].
  cbn [bind].
  assert (Hlen2 : len nodes2 = len nodes1)
    by (unfold len; rewrite (Permutation_length Hperm2); reflexivity).
  destruct (IH nodes2 R) as (nodes3 & -> & Hperm3 & Hframe3 & Horder3); [lia..|].
  assert (Hbelow : forall a k, 0 <= a ->
    within (get_left_child_index a) k \/ within (get_right_child_index a) k ->
    within a k /\ a < k).
  { intros a k Ha [H | H].
    - split; [apply within_left_up; assumption|].
      apply within_ge in H; unfold get_left_child_index in *; lia.
    - split; [apply within_right_up; assumption|].
      apply within_ge in H; unfold get_right_child_index in *; lia. }
  assert (Hkeep3 : forall k, 0 <= k -> ~ within R k ->
    PyList.getitem nodes3 k = PyList.getitem nodes2 k).
  { intros k Hk Hnot. apply Hframe3; [assumption| |];
      intros H; apply Hnot; apply (Hbelow R k); [lia | auto | lia | auto]. }
  assert (Hkeep2 : forall k, 0 <= k -> ~ within L k ->
    PyList.getitem nodes2 k = PyList.getitem nodes1 k).
  { intros k Hk Hnot. apply Hframe2; [assumption| |];
      intros H; apply Hnot; apply (Hbelow L k); [lia | auto | lia | auto]. }
  exists nodes3. split; [reflexivity|]. split; [|split].
  - rewrite Hperm3, Hperm2. assumption.
  - intros k Hk HnL HnR.
    rewrite Hkeep3, Hkeep2, Hget1; try assumption; try reflexivity.
    + intros ->. apply HnL. apply within_root.
    + intros ->. apply HnR. apply within_root.
  - intros k lv rv Hk Hlv Hrv.
    apply within_split in Hk as [-> | [Hk | Hk]].
    + unfold left_child, right_child in Hlv, Hrv. fold L R in Hlv, Hrv.
      assert (HRL : ~ within R L) by (intros H; apply within_ge in H; lia).
      assert (HLR' : ~ within L R).
      { intros H. apply (siblings_disjoint i R Hi H). apply within_root. }
      assert (HLL : ~ within (get_left_child_index L) L /\
                    ~ within (get_right_child_index L) L).
      { split; intros H; apply within_ge in H;
          unfold get_left_child_index, get_right_child_index in *; lia. }
      assert (HRR : ~ within (get_left_child_index R) R /\
                    ~ within (get_right_child_index R) R).
      { split; intros H; apply within_ge in H;
          unfold get_left_child_index, get_right_child_index in *; lia. }
      rewrite (Hkeep3 L), (Hframe2 L) in Hlv by (tauto || lia).
      rewrite (Hframe3 R), (Hkeep2 R) in Hrv by (tauto || lia).
      rewrite Hl1 in Hlv. rewrite Hr1 in Hrv. simplify_eq. assumption.
    + assert (Hk0 : 0 <= k) by (apply within_ge in Hk; lia).
      apply (Horder2 k lv rv Hk).
      * unfold left_child in *. rewrite <- Hkeep3; [assumption | unfold get_left_child_index; lia |].
        intros H. apply (siblings_disjoint i (get_left_child_index k) Hi);
          [apply within_left; assumption | assumption].
      * unfold right_child in *. rewrite <- Hkeep3; [assumption | unfold get_right_child_index; lia |].
        intros H. apply (siblings_disjoint i (get_right_child_index k) Hi);
          [apply within_right; assumption | assumption].
    + apply (Horder3 k lv rv); assumption.
Qed.

(** X9: [heapify_children(0)] returns without raising on any list; in
    the list it leaves, every node that has two children has its left
    child no larger than its right child, the element at index 0 is the
    one that was there, and no element is lost or added. *)
Theorem heapify_children_orders_siblings (nodes : list Z) :
  exists nodes',
    heapify_children nodes 0 = Ok nodes' /\
    nodes' ≡ₚ nodes /\
    PyList.getitem nodes' 0 = PyList.getitem nodes 0 /\
    forall k l r,
      0 <= k -> left_child nodes' k = Ok l -> right_child nodes' k = Ok r -> l <= r.
Proof.
  destruct (heapify_children_fuel_order (S (length nodes)) nodes 0)
    as (nodes' & Hrun & Hperm & Hframe & Horder); [lia | unfold len; lia |].
  exists nodes'. split; [assumption|]. split; [assumption|]. split.
  - apply Hframe; [lia | |]; intros H; apply within_ge in H;
      unfold get_left_child_index, get_right_child_index in *; lia.
  - intros k l r Hk. apply Horder. apply within_zero. assumption.
Qed.

(** X10: [heapify_children(index)] works on the subtree of [index] only:
    it orders the two children of every node of that subtree, and every
    position outside the subtree, like [index] itself, keeps its
    element. *)
Theorem heapify_children_subtree (nodes : list Z) (index : Z) :
  0 <= index ->
  exists nodes',
    heapify_children nodes index = Ok nodes' /\
    nodes' ≡ₚ nodes /\
    (forall k l r,
       within index k ->
       left_child nodes' k = Ok l -> right_child nodes' k = Ok r -> l <= r) /\
    (forall k,
       0 <= k -> k = index \/ ~ within index k ->
       PyList.getitem nodes' k = PyList.getitem nodes k).
Proof.
  intros Hindex.
  destruct (heapify_children_fuel_order (S (length nodes)) nodes index)
    as (nodes' & Hrun & Hperm & Hframe & Horder); [lia | unfold len; lia |].
  exists nodes'. split; [assumption|]. split; [assumption|]. split; [assumption|].
  intros k Hk Hout. apply Hframe; [assumption | |]; intros H.
  - destruct Hout as [-> | Hout].
    + apply within_ge in H; unfold get_left_child_index in *; lia.
    + apply Hout. apply within_left_up. assumption.
  - destruct Hout as [-> | Hout].
    + apply within_ge in H; unfold get_right_child_index in *; lia.
    + apply Hout. apply within_right_up. assumption.
Qed.

Lemma heapify_children_subtree_witness :
  0 <= 1 /\
  exists nodes',
    heapify_children [1; 5; 2; 7; 6; 4; 3] 1 = Ok nodes' /\
    nodes' ≡ₚ [1; 5; 2; 7; 6; 4; 3] /\
    (forall k l r,
       within 1 k ->
       left_child nodes' k = Ok l -> right_child nodes' k = Ok r -> l <= r) /\
    (forall k,
       0 <= k -> k = 1 \/ ~ within 1 k ->
       PyList.getitem nodes' k = PyList.getitem [1; 5; 2; 7; 6; 4; 3] k).
Proof.
  split; [lia|]. apply (heapify_children_subtree [1; 5; 2; 7; 6; 4; 3] 1). lia.
Defined.

(** X11: [heapsort_in_place] works on the object it is given and returns
    that same object; in the contents it leaves, every node with two
    children has its left child no larger than its right child; every
    other list object that existed keeps its contents. *)
Theorem heapsort_in_place_in_place (σ : store) (r : ref) (S : list Z) :
  σ !! r = Some S ->
  exists out σ',
    heapsort_in_place σ r = Ok (r, σ') /\
    σ' !! r = Some out /\
    (forall k lv rv,
       0 <= k -> left_child out k = Ok lv -> right_child out k = Ok rv -> lv <= rv) /\
    (forall r' l, r' <> r -> σ !! r' = Some l -> σ' !! r' = Some l).
Proof.
  intros Hr.
  destruct (bottom_up_pass_heap S) as (heap & Hpass & _ & _).
  destruct (heapify_children_fuel_order (Datatypes.S (length heap)) heap 0)
    as (out & Hchildren & _ & _ & Horder); [lia | unfold len; lia |].
  exists out, (<[r := out]> (σ ++ [[]])). split; [|split; [|split]].
  - rewrite (heapsort_in_place_run σ r S Hr), Hpass. cbn [bind].
    unfold heapify_children. rewrite Hchildren. reflexivity.
  - apply list_lookup_insert_eq. rewrite length_app.
    apply lookup_lt_Some in Hr. lia.
  - intros k lv rv Hk. apply Horder. apply within_zero. assumption.
  - intros r' l Hne Hl. rewrite list_lookup_insert_ne by congruence.
    apply lookup_app_l_Some. assumption.
Qed.

Lemma heapsort_in_place_in_place_witness :
  [[4]; [1; 5; 2; 6; 7; 3; 4]] !! 1%nat = Some [1; 5; 2; 6; 7; 3; 4] /\
  exists out σ',
    heapsort_in_place [[4]; [1; 5; 2; 6; 7; 3; 4]] 1%nat = Ok (1%nat, σ') /\
    σ' !! 1%nat = Some out /\
    (forall k lv rv,
       0 <= k -> left_child out k = Ok lv -> right_child out k = Ok rv -> lv <= rv) /\
    (forall r' l, r' <> 1%nat ->
       [[4]; [1; 5; 2; 6; 7; 3; 4]] !! r' = Some l -> σ' !! r' = Some l).
Proof.
  split; [reflexivity|].
  apply (heapsort_in_place_in_place [[4]; [1; 5; 2; 6; 7; 3; 4]] 1%nat
           [1; 5; 2; 6; 7; 3; 4]).
  reflexivity.
Defined.

(** ** Building a linked list: [append], the constructor, [appendleft] *)

Lemma py_eq_true a b : SLL.py_eq a b = true <-> a = b.
Proof.
  destruct a as [s | n], b as [t | m]; simpl; split; intros H; try congruence.
  - apply String.eqb_eq in H. congruence.
  - apply String.eqb_eq. congruence.
  - apply Z.eqb_eq in H. congruence.
  - apply Z.eqb_eq. congruence.
Qed.

Lemma py_eq_false a b : SLL.py_eq a b = false <-> a <> b.
Proof.
  rewrite <- py_eq_true. destruct (SLL.py_eq a b); split; congruence.
Qed.

Lemma append_from_spec d : forall node,
  SLL.data (SLL.append_from node d) = SLL.data node /\
  SLL.payloads_after (SLL.append_from node d) = SLL.payloads_after node ++ [d].
Proof.
  induction node as [x | x n [IHd IHp]] using SLLNode_chain_ind.
  - split; reflexivity.
  - split; [reflexivity|]. cbn [SLL.append_from].
    rewrite !payloads_after_link, IHd, IHp. reflexivity.
Qed.

Lemma length_append l d : SLL.length (SLL.append l d) = SLL.length l + 1.
Proof.
  destruct (append_from_spec d (SLL.HEAD l)) as [_ Hp].
  rewrite !length_payloads. unfold SLL.payloads, SLL.append. cbn [SLL.HEAD].
  rewrite Hp. unfold len. rewrite length_app. simpl. lia.
Qed.

(** X12: [append] puts the payload after the last data node: the
    payloads of the list become the old ones followed by the new one, the
    length grows by one and the sentinel keeps its payload. *)
Theorem append_extends (l : SLL.SinglyLinkedList) (d : SLL.pyval) :
  SLL.payloads (SLL.append l d) = SLL.payloads l ++ [d] /\
  SLL.length (SLL.append l d) = SLL.length l + 1 /\
  SLL.data (SLL.HEAD (SLL.append l d)) = SLL.data (SLL.HEAD l).
Proof.
  destruct (append_from_spec d (SLL.HEAD l)) as [Hd Hp].
  split; [exact Hp|]. split; [apply length_append | exact Hd].
Qed.

Lemma init_loop_payloads (nodes : list SLL.SLLNode) : forall l,
  SLL.payloads (fold_left (fun l node => SLL.append l (SLL.data node)) nodes l) =
    SLL.payloads l ++ map SLL.data nodes /\
  SLL.data (SLL.HEAD (fold_left (fun l node => SLL.append l (SLL.data node)) nodes l)) =
    SLL.data (SLL.HEAD l).
Proof.
  induction nodes as [|node nodes IH]; intros l; simpl.
  - rewrite app_nil_r. split; reflexivity.
  - destruct (IH (SLL.append l (SLL.data node))) as [Hp Hd].
    destruct (append_from_spec (SLL.data node) (SLL.HEAD l)) as [Hd1 Hp1].
    rewrite Hp, Hd. unfold SLL.payloads, SLL.append. cbn [SLL.HEAD].
    rewrite Hp1, Hd1, <- app_assoc. split; reflexivity.
Qed.

(** X13: the constructor called with a Python list of nodes builds a
    list that holds the payloads of those nodes in the same order, one
    data node each, whatever the [next] links of the given nodes are; its
    sentinel carries the string ["HEAD"]. *)
Theorem init_payloads (nodes : list SLL.SLLNode) :
  SLL.payloads (SLL.init (Some nodes)) = map SLL.data nodes /\
  SLL.length (SLL.init (Some nodes)) = len nodes /\
  SLL.data (SLL.HEAD (SLL.init (Some nodes))) = SLL.PyStr "HEAD".
Proof.
  destruct (init_loop_payloads nodes SLL.new) as [Hp Hd].
  unfold SLL.init. split; [exact Hp|]. split; [|exact Hd].
  rewrite length_payloads, Hp. unfold len. simpl. rewrite length_map. reflexivity.
Qed.

(** X14: [appendleft] puts the payload in front of the data nodes, and a
    [popleft] right after it returns a node with that payload and gives
    the list back as it was. *)
Theorem appendleft_popleft (l : SLL.SinglyLinkedList) (d : SLL.pyval) :
  SLL.payloads (SLL.appendleft l d) = d :: SLL.payloads l /\
  SLL.length (SLL.appendleft l d) = SLL.length l + 1 /\
  SLL.popleft (SLL.appendleft l d) = (Some (SLL.Node d (SLL.next (SLL.HEAD l))), l).
Proof.
  assert (Hp : SLL.payloads (SLL.appendleft l d) = d :: SLL.payloads l).
  { destruct l as [[x [n|]]]; [|reflexivity].
    unfold SLL.payloads, SLL.appendleft. cbn [SLL.HEAD SLL.next SLL.data].
    rewrite payloads_after_link. reflexivity. }
  split; [exact Hp|]. split.
  - rewrite !length_payloads, Hp. unfold len. cbn [List.length]. lia.
  - destruct l as [[x [n|]]]; reflexivity.
Qed.

(** X15: [popleft] on a list with data nodes returns the first one and
    leaves the others in order; on a list without data nodes it returns
    [None] and changes nothing. *)
Theorem popleft_first (l : SLL.SinglyLinkedList) :
  match SLL.payloads l with
  | [] => SLL.popleft l = (None, l)
  | d :: ds =>
      exists n l',
        SLL.popleft l = (Some n, l') /\ SLL.next (SLL.HEAD l) = Some n /\
        SLL.data n = d /\ SLL.payloads l' = ds /\
        SLL.data (SLL.HEAD l') = SLL.data (SLL.HEAD l)
  end.
Proof.
  destruct l as [[x [n|]]]; unfold SLL.payloads, SLL.popleft; cbn [SLL.HEAD SLL.next SLL.data].
  - rewrite payloads_after_link. exists n. eexists.
    split; [reflexivity|]. split; [reflexivity|]. split; [reflexivity|].
    split; [|reflexivity]. cbn [SLL.HEAD]. destruct n as [y [m|]]; reflexivity.
  - reflexivity.
Qed.

(** ** [pop] *)

Lemma pop_from_last d : forall node ds,
  SLL.payloads_after node = ds ++ [d] ->
  exists node',
    SLL.pop_from node = Ok (SLL.Node d None, node') /\
    SLL.data node' = SLL.data node /\
    SLL.payloads_after node' = ds.
Proof.
  induction node as [x | x n IH] using SLLNode_chain_ind; intros ds Hp.
  - destruct ds; discriminate.
  - rewrite payloads_after_link in Hp. cbn [SLL.pop_from].
    destruct n as [y [m|]]; cbn [SLL.next SLL.data] in *.
    + destruct ds as [|z ds]; simpl in Hp.
      { rewrite payloads_after_link in Hp. discriminate. }
      injection Hp as <- Hp.
      destruct (IH ds Hp) as (n' & -> & Hd & Hpay). cbn [bind].
      eexists. split; [reflexivity|]. split; [reflexivity|].
      rewrite payloads_after_link, Hd, Hpay. reflexivity.
    + destruct ds as [|z ds]; simpl in Hp.
      * injection Hp as <-. eexists. split; [reflexivity|]. split; reflexivity.
      * injection Hp as _ Hp. destruct ds; discriminate.
Qed.

(** X16: [pop] on a list whose data nodes carry [ds] followed by [d]
    returns, without raising, a node that carries [d] and has no
    successor, and leaves the data nodes carrying [ds]. *)
Theorem pop_last (l : SLL.SinglyLinkedList) (ds : list SLL.pyval) (d : SLL.pyval) :
  SLL.payloads l = ds ++ [d] ->
  exists l',
    SLL.pop l = Ok (Some (SLL.Node d None), l') /\
    SLL.payloads l' = ds /\
    SLL.data (SLL.HEAD l') = SLL.data (SLL.HEAD l).
Proof.
  intros Hp. unfold SLL.payloads in Hp.
  destruct (pop_from_last d (SLL.HEAD l) ds Hp) as (h & Hrun & Hd & Hpay).
  unfold SLL.pop. destruct (SLL.next (SLL.HEAD l)) eqn:Hnext.
  - rewrite Hrun. cbn [bind]. eexists. split; [reflexivity|]. split; assumption.
  - destruct (SLL.HEAD l) as [x nx]. simpl in Hnext. subst nx.
    destruct ds; discriminate.
Qed.

Lemma pop_last_witness :
  SLL.payloads SLL.one_two_three = [SLL.PyInt 1; SLL.PyInt 2] ++ [SLL.PyInt 3] /\
  exists l',
    SLL.pop SLL.one_two_three = Ok (Some (SLL.Node (SLL.PyInt 3) None), l') /\
    SLL.payloads l' = [SLL.PyInt 1; SLL.PyInt 2] /\
    SLL.data (SLL.HEAD l') = SLL.data (SLL.HEAD SLL.one_two_three).
Proof.
  split; [reflexivity|].
  apply (pop_last SLL.one_two_three [SLL.PyInt 1; SLL.PyInt 2] (SLL.PyInt 3)).
  reflexivity.
Defined.

Lemma pop_from_append_from d : forall node,
  SLL.pop_from (SLL.append_from node d) = Ok (SLL.Node d None, node).
Proof.
  induction node as [x | x n IH] using SLLNode_chain_ind; [reflexivity|].
  cbn [SLL.append_from SLL.pop_from]. rewrite IH.
  destruct n as [y [m|]]; reflexivity.
Qed.

(** X17: [pop] undoes [append]: after [append(d)], [pop] returns a node
    carrying [d] and the list is again what it was; on a list without
    data nodes [pop] returns [None] and changes nothing. *)
Theorem pop_append (l : SLL.SinglyLinkedList) (d : SLL.pyval) :
  SLL.pop (SLL.append l d) = Ok (Some (SLL.Node d None), l) /\
  SLL.pop SLL.new = Ok (None, SLL.new).
Proof.
  split; [|reflexivity].
  unfold SLL.pop, SLL.append. cbn [SLL.HEAD].
  rewrite pop_from_append_from. destruct l as [[x [n|]]]; reflexivity.
Qed.

Lemma remove_present_witness :
  (exists x, x ∈ SLL.payloads SLL.one_two_three /\ SLL.py_eq x (SLL.PyInt 2) = true) /\
  exists l',
    SLL.remove SLL.one_two_three (SLL.PyInt 2) = Ok (SLL.ReturnedSelf, l') /\
    SLL.data (SLL.HEAD l') = SLL.data (SLL.HEAD SLL.one_two_three) /\
    SLL.payloads l' = SLL.without_first (SLL.PyInt 2) (SLL.payloads SLL.one_two_three).
Proof.
  assert (H : exists x, x ∈ SLL.payloads SLL.one_two_three /\
                        SLL.py_eq x (SLL.PyInt 2) = true).
  { exists (SLL.PyInt 2). split; [|reflexivity].
    apply list_elem_of_further, list_elem_of_here. }
  split; [exact H|]. apply (remove_present SLL.one_two_three (SLL.PyInt 2) H).
Defined.

Lemma indexing_in_range_witness :
  0 <= 1 < SLL.length SLL.one_two_three /\
  (exists n,
     SLL.getitem SLL.one_two_three 1 = Ok (Some n) /\
     SLL.payloads SLL.one_two_three !! Z.to_nat 1 = Some (SLL.data n)) /\
  (forall d, exists l',
     SLL.setitem SLL.one_two_three 1 d = Ok l' /\
     SLL.data (SLL.HEAD l') = SLL.data (SLL.HEAD SLL.one_two_three) /\
     SLL.payloads l' = <[Z.to_nat 1 := d]> (SLL.payloads SLL.one_two_three)) /\
  (exists l',
     SLL.delitem SLL.one_two_three 1 = Ok l' /\
     SLL.data (SLL.HEAD l') = SLL.data (SLL.HEAD SLL.one_two_three) /\
     SLL.payloads l' = delete (Z.to_nat 1) (SLL.payloads SLL.one_two_three)).
Proof.
  assert (H : 0 <= 1 < SLL.length SLL.one_two_three) by (vm_compute; split; congruence).
  split; [exact H|]. apply (indexing_in_range SLL.one_two_three 1 H).
Defined.

(** ** [find] and [contains] *)

Lemma iter_payloads l :
  exists rest,
    SLL.iter l = SLL.HEAD l :: rest /\ SLL.payloads l = map SLL.data rest /\
    (SLL.next (SLL.HEAD l) = None -> rest = []).
Proof.
  unfold SLL.iter, SLL.payloads, SLL.payloads_after.
  destruct (SLL.HEAD l) as [x [n|]]; cbn [SLL.iter_from].
  - eexists. split; [reflexivity|]. split; [reflexivity|]. discriminate.
  - exists []. split; [reflexivity|]. split; reflexivity.
Qed.

Lemma first_with_data_None nodes d :
  SLL.first_with_data nodes d = None <-> d ∉ map SLL.data nodes.
Proof.
  induction nodes as [|node nodes IH]; simpl.
  - split; [intros _; apply not_elem_of_nil | reflexivity].
  - rewrite not_elem_of_cons, <- IH.
    destruct (SLL.py_eq (SLL.data node) d) eqn:Heq.
    + apply py_eq_true in Heq. split; [discriminate | intros [Hne _]; congruence].
    + apply py_eq_false in Heq. split; [intros H; split; [congruence | assumption] | tauto].
Qed.

Lemma first_with_data_Some nodes d n :
  SLL.first_with_data nodes d = Some n ->
  SLL.data n = d /\
  exists k : nat,
    nodes !! k = Some n /\
    forall (j : nat) x, (j < k)%nat -> map SLL.data nodes !! j = Some x -> x <> d.
Proof.
  induction nodes as [|node nodes IH]; simpl; [discriminate|].
  destruct (SLL.py_eq (SLL.data node) d) eqn:Heq.
  - intros [= <-]. apply py_eq_true in Heq. split; [assumption|].
    exists O. split; [reflexivity|]. intros j x Hj. lia.
  - intros Hfind. destruct (IH Hfind) as (Hd & k & Hk & Hfirst).
    split; [assumption|]. exists (S k). split; [assumption|].
    intros [|j] x Hj Hx; simpl in Hx.
    + injection Hx as <-. apply py_eq_false. assumption.
    + apply (Hfirst j x); [lia | assumption].
Qed.

(** X20: for a payload other than the sentinel's, [find] returns [None]
    exactly when no data node carries the payload, and otherwise the
    first data node that carries it. *)
Theorem find_first_match (l : SLL.SinglyLinkedList) (d : SLL.pyval) :
  SLL.data (SLL.HEAD l) <> d ->
  (SLL.find l d = None <-> d ∉ SLL.payloads l) /\
  forall n,
    SLL.find l d = Some n ->
    SLL.data n = d /\
    exists k : nat,
      SLL.iter l !! S k = Some n /\
      SLL.payloads l !! k = Some d /\
      forall (j : nat) x, (j < k)%nat -> SLL.payloads l !! j = Some x -> x <> d.
Proof.
  intros Hsentinel. apply py_eq_false in Hsentinel.
  destruct (iter_payloads l) as (rest & Hiter & Hpay & Hempty).
  unfold SLL.find. rewrite Hiter, Hpay. cbn [SLL.first_with_data]. rewrite Hsentinel.
  destruct (SLL.next (SLL.HEAD l)) as [first|].
  - split; [apply first_with_data_None|].
    intros n Hfind. destruct (first_with_data_Some rest d n Hfind) as (Hd & k & Hk & Hfirst).
    split; [assumption|]. exists k. split; [assumption|]. split; [|assumption].
    rewrite list_lookup_fmap, Hk. simpl. congruence.
  - rewrite (Hempty eq_refl). split; [|discriminate].
    split; [intros _; apply not_elem_of_nil | reflexivity].
Qed.

Lemma find_first_match_witness :
  SLL.data (SLL.HEAD SLL.one_two_three) <> SLL.PyInt 2 /\
  (SLL.find SLL.one_two_three (SLL.PyInt 2) = None <->
   SLL.PyInt 2 ∉ SLL.payloads SLL.one_two_three) /\
  forall n,
    SLL.find SLL.one_two_three (SLL.PyInt 2) = Some n ->
    SLL.data n = SLL.PyInt 2 /\
    exists k : nat,
      SLL.iter SLL.one_two_three !! S k = Some n /\
      SLL.payloads SLL.one_two_three !! k = Some (SLL.PyInt 2) /\
      forall (j : nat) x, (j < k)%nat ->
        SLL.payloads SLL.one_two_three !! j = Some x -> x <> SLL.PyInt 2.
Proof.
  assert (H : SLL.data (SLL.HEAD SLL.one_two_three) <> SLL.PyInt 2) by discriminate.
  split; [exact H|]. apply (find_first_match SLL.one_two_three (SLL.PyInt 2) H).
Defined.

(** X21: [contains] is true exactly when the payload is the one the
    sentinel carries or one that a data node carries. *)
Theorem contains_sentinel_or_payload (l : SLL.SinglyLinkedList) (d : SLL.pyval) :
  SLL.contains l d = true <-> SLL.data (SLL.HEAD l) = d \/ d ∈ SLL.payloads l.
Proof.
  destruct (iter_payloads l) as (rest & Hiter & Hpay & _).
  unfold SLL.contains. rewrite Hiter, Hpay. cbn [SLL.first_with_data].
  destruct (SLL.py_eq (SLL.data (SLL.HEAD l)) d) eqn:Heq.
  - apply py_eq_true in Heq. split; [left; assumption | reflexivity].
  - apply py_eq_false in Heq.
    pose proof (first_with_data_None rest d) as Hnone.
    destruct (SLL.first_with_data rest d) as [n|] eqn:Hfind.
    + split; [|reflexivity]. intros _. right.
      destruct (first_with_data_Some rest d n Hfind) as (Hd & k & Hk & _).
      rewrite <- Hd. apply list_elem_of_fmap_2.
      eapply list_elem_of_lookup_2. eassumption.
    + split; [discriminate|]. intros [H | H]; [congruence|].
      exfalso. apply Hnone; [reflexivity | assumption].
Qed.

(** ** Indexing past the end *)

Lemma walk_at_end : forall node,
  exists last,
    SLL.walk (List.length (SLL.payloads_after node)) (Some node) = Ok (Some last) /\
    SLL.next last = None.
Proof.
  induction node as [x | x n IH] using SLLNode_chain_ind.
  - eexists. split; reflexivity.
  - rewrite payloads_after_link. exact IH.
Qed.

Lemma walk_past_end (k : nat) : forall node,
  (List.length (SLL.payloads_after node) < k)%nat ->
  SLL.walk k (Some node) = Ok None \/ SLL.walk k (Some node) = Raise AttributeError.
Proof.
  induction k as [|k IH]; intros node Hk; [lia|].
  destruct node as [x [n|]]; cbn [SLL.walk SLL.next].
  - apply IH. rewrite payloads_after_link in Hk. simpl in Hk. lia.
  - destruct k; [left | right]; reflexivity.
Qed.

Lemma update_at_past_end f (k : nat) : forall node,
  (List.length (SLL.payloads_after node) < k)%nat ->
  SLL.update_at k f node = Raise AttributeError.
Proof.
  induction k as [|k IH]; intros node Hk; [lia|].
  destruct node as [x [n|]]; cbn [SLL.update_at]; [|reflexivity].
  rewrite IH; [reflexivity|]. rewrite payloads_after_link in Hk. simpl in Hk. lia.
Qed.

Lemma update_at_unlink_at_end : forall node,
  SLL.update_at (List.length (SLL.payloads_after node)) SLL.unlink_next node = Ok node.
Proof.
  induction node as [x | x n IH] using SLLNode_chain_ind; [reflexivity|].
  rewrite payloads_after_link. cbn [List.length SLL.update_at]. rewrite IH. reflexivity.
Qed.

(** X22: an index at or past the length is never reported as out of
    range.  At the length itself [__getitem__] returns [None] and
    [__delitem__] changes nothing; beyond it both raise [AttributeError];
    [__setitem__] raises [AttributeError] from the length on. *)
Theorem indexing_past_end (l : SLL.SinglyLinkedList) (index : Z) (d : SLL.pyval) :
  SLL.length l <= index ->
  SLL.setitem l index d = Raise AttributeError /\
  (index = SLL.length l ->
     SLL.getitem l index = Ok None /\ SLL.delitem l index = Ok l) /\
  (SLL.length l < index ->
     SLL.getitem l index = Raise AttributeError /\
     SLL.delitem l index = Raise AttributeError).
Proof.
  intros Hindex. pose proof (length_nonneg l) as Hlen.
  rewrite length_payloads in *. unfold len, SLL.payloads in *.
  unfold SLL.getitem, SLL.setitem, SLL.delitem. rewrite out_of_range_false.
  split; [|split].
  - rewrite update_at_past_end by lia. reflexivity.
  - intros ->. rewrite Nat2Z.id.
    destruct (walk_at_end (SLL.HEAD l)) as (last & -> & Hlast). cbn [bind].
    rewrite Hlast, update_at_unlink_at_end. cbn [bind].
    split; [reflexivity|]. destruct l. reflexivity.
  - intros Hlt.
    rewrite update_at_past_end by lia. split; [|reflexivity].
    destruct (walk_past_end (Z.to_nat index) (SLL.HEAD l)) as [-> | ->];
      [lia | reflexivity | reflexivity].
Qed.

Lemma indexing_past_end_witness :
  SLL.length SLL.one_two_three <= 5 /\
  SLL.setitem SLL.one_two_three 5 (SLL.PyInt 9) = Raise AttributeError /\
  (5 = SLL.length SLL.one_two_three ->
     SLL.getitem SLL.one_two_three 5 = Ok None /\
     SLL.delitem SLL.one_two_three 5 = Ok SLL.one_two_three) /\
  (SLL.length SLL.one_two_three < 5 ->
     SLL.getitem SLL.one_two_three 5 = Raise AttributeError /\
     SLL.delitem SLL.one_two_three 5 = Raise AttributeError).
Proof.
  assert (H : SLL.length SLL.one_two_three <= 5) by (vm_compute; congruence).
  split; [exact H|].
  apply (indexing_past_end SLL.one_two_three 5 (SLL.PyInt 9) H).
Defined.

(** ** Comparing lists *)


Lemma walk_outcome (k : nat) : forall node,
  (exists m, SLL.walk k node = Ok m) \/ SLL.walk k node = Raise AttributeError.
Proof.
  induction k as [|k IH]; intros [n|]; simpl; eauto.
Qed.

Lemma getitem_outcome l index :
  (exists m, SLL.getitem l index = Ok m) \/ SLL.getitem l index = Raise AttributeError.
Proof.
  unfold SLL.getitem. rewrite out_of_range_false.
  destruct (walk_outcome (Z.to_nat index) (Some (SLL.HEAD l))) as [[[m|] ->] | ->];
    cbn [bind]; eauto.
Qed.

(** X24: [==] never answers [True].  On lists of different lengths it
    answers [False]; on lists of equal length, its loop starts at the
    sentinel and indexes the other list with the sentinel's payload: a
    string there raises [TypeError], and with an integer there the loop
    answers [False] or raises.  Accordingly [!=] answers [True] or
    raises. *)
Theorem eq_never_true (l other : SLL.SinglyLinkedList) :
  (SLL.length l <> SLL.length other -> SLL.__eq__ l other = Ok false) /\
  (SLL.length l = SLL.length other ->
   forall s, SLL.data (SLL.HEAD l) = SLL.PyStr s ->
   SLL.__eq__ l other = Raise TypeError) /\
  (SLL.__eq__ l other = Ok false \/ exists e, SLL.__eq__ l other = Raise e) /\
  (SLL.__ne__ l other = Ok true \/ exists e, SLL.__ne__ l other = Raise e).
Proof.
  assert (Hloop : SLL.eq_loop (SLL.iter l) other = Ok false \/
                  exists e, SLL.eq_loop (SLL.iter l) other = Raise e).
  { destruct (iter_payloads l) as (rest & -> & _). cbn [SLL.eq_loop].
    unfold SLL.getitem_payload.
    destruct (SLL.data (SLL.HEAD l)) as [s | n]; [right; eexists; reflexivity|].
    destruct (getitem_outcome other n) as [[m ->] | ->];
      [left; reflexivity | right; eexists; reflexivity]. }
  assert (Heq : SLL.__eq__ l other = Ok false \/ exists e, SLL.__eq__ l other = Raise e).
  { unfold SLL.__eq__. destruct (negb _); [left; reflexivity | exact Hloop]. }
  split; [|split; [|split]].
  - intros Hne. unfold SLL.__eq__.
    destruct (Z.eqb_spec (SLL.length l) (SLL.length other)); [contradiction | reflexivity].
  - intros Hlen s Hs. unfold SLL.__eq__. rewrite Hlen, Z.eqb_refl. cbn [negb].
    destruct (iter_payloads l) as (rest & -> & _). cbn [SLL.eq_loop]. rewrite Hs. reflexivity.
  - exact Heq.
  - unfold SLL.__ne__. destruct Heq as [-> | [e ->]];
      [left; reflexivity | right; exists e; reflexivity].
Qed.
